(** * clic.h: command line interface companion

    A shallow embedding of [clic.h] (the registry, the declaration
    functions and [clic_parse]) and the properties of its specification
    that were settled against it.

    Conventions of the embedding:
    - a [const char *] is an [option string] ([None] is the null pointer,
      [Some s] points to the characters [s] that precede the terminator);
    - a C [int] supplied by the caller is a [Z]; the two life-cycle bits
      [is_init] and [is_parsed] and the [is_required] bit, which the
      library only ever sets to 0 or 1, are [bool];
    - the intrusive singly linked lists of [clic_globals] are Rocq lists in
      insertion order ([clic_add_to_list] appends at the end);
    - [int *] and [char **] arguments are [option loc]; the cells they
      designate live in a store [gmap loc val];
    - the argument vector is the list of its [argc] strings; reading it at
      [argc] yields the null pointer that ends it, reading it beyond is
      outside the array;
    - a node of a list is freed by the cleanup of [clic_parse] and by
      nothing else, so that the nodes are freed exactly when [is_parsed]
      is set and the call that set it has returned;
    - [exit], [clic_fail], undefined behaviour (a store through a null or
      dangling pointer, a read outside an array or of an indeterminate
      pointer) and a loop that does not stop are constructors of
      [outcome]. *)

From Stdlib Require Import ZArith String Ascii Lia.
From stdpp Require Import base option list gmap strings.

Local Open Scope string_scope.
Local Open Scope Z_scope.

(** ** Characters and C strings *)

Definition cstr := option string.

(** [isalpha] of <ctype.h> in the "C" locale, the one in effect since the
    library never calls [setlocale]. *)
Definition isalpha (c : ascii) : bool :=
  let n := nat_of_ascii c in
  ((65 <=? n)%nat && (n <=? 90)%nat) || ((97 <=? n)%nat && (n <=? 122)%nat).

(** [s[i]]: the character at offset [i], the terminator at the end. *)
Definition char_at (s : string) (i : nat) : ascii :=
  match String.get i s with
  | Some c => c
  | None => zero
  end.

(** [s + n]: the string that starts [n] characters further. *)
Fixpoint string_drop (n : nat) (s : string) : string :=
  match n, s with
  | O, _ => s
  | S n', String _ s' => string_drop n' s'
  | S _, EmptyString => EmptyString
  end.

(** [!strcmp(a, b)] *)
Definition streq (a b : string) : bool := String.eqb a b.

(** [!strncmp(s, p, strlen(p))] *)
Definition has_prefix (p s : string) : bool := String.prefix p s.

(** ** Outcomes of a call *)

Inductive outcome (A : Type) : Type :=
| Ret (a : A)               (* the call returns *)
| Failed (msg : string)     (* clic_fail: perror, exit(EXIT_FAILURE) *)
| Exited (out : cstr)       (* exit(EXIT_SUCCESS), after printing [out] *)
| Undefined                 (* undefined behaviour of the C program *)
| OutOfFuel.                (* the loop did not stop within the fuel *)
Arguments Ret {A} a.
Arguments Failed {A} msg.
Arguments Exited {A} out.
Arguments Undefined {A}.
Arguments OutOfFuel {A}.

Definition bind {A B} (o : outcome A) (k : A -> outcome B) : outcome B :=
  match o with
  | Ret a => k a
  | Failed msg => Failed msg
  | Exited out => Exited out
  | Undefined => Undefined
  | OutOfFuel => OutOfFuel
  end.

Notation "'let!' x ':=' o 'in' k" := (bind o (fun x => k))
  (at level 10, x name, o at level 100, k at level 200).
Notation "'check!' o 'in' k" := (bind o (fun _ => k))
  (at level 10, o at level 100, k at level 200).

(** Every [clic_fail] of the library reports a misuse of the declaration
    and parsing interface: these are the configuration errors. *)
Definition ConfigurationError {A} (o : outcome A) : Prop :=
  exists msg, o = Failed msg.

Definition returns {A} (o : outcome A) : Prop :=
  exists a, o = Ret a.

(** ** Data model *)

Definition loc := positive.

Inductive clic_type := CLIC_FLAG | CLIC_BOOL | CLIC_INT | CLIC_STRING.

Record clic_param_or_arg := mk_param_or_arg {
  pa_subcommand_id : Z;
  pa_name : string;
  pa_description : cstr;
  pa_type : clic_type;
  pa_is_required : bool;
  scalar_default_value : Z;
  scalar_variable : option loc;
  mask : Z;
  string_default_value : cstr;
  string_variable : option loc;
  restrict_to_declared_options : Z
}.

Record clic_scope := mk_scope {
  sc_subcommand_id : Z;
  subcommand_name : cstr;
  sc_description : cstr;
  accept_unnamed_arguments : Z
}.

Record clic_string_option := mk_string_option {
  so_subcommand_id : Z;
  so_param_or_arg_name : cstr;
  so_value : cstr
}.

Record clic_metadata := mk_metadata {
  version : cstr;
  license : cstr
}.

Record clic_globals := mk_globals {
  is_init : bool;
  is_parsed : bool;
  flag_names : list string;
  params_and_args : list clic_param_or_arg;
  string_options : list clic_string_option;
  subcommand_scopes : list clic_scope;
  metadata : clic_metadata;
  main_scope : clic_scope
}.

(** The static storage of [clic_globals] before any call: all zero. *)
Definition clic_globals_zero : clic_globals :=
  {| is_init := false; is_parsed := false;
     flag_names := []; params_and_args := []; string_options := [];
     subcommand_scopes := [];
     metadata := {| version := None; license := None |};
     main_scope := {| sc_subcommand_id := 0; subcommand_name := None;
                      sc_description := None;
                      accept_unnamed_arguments := 0 |} |}.

(** ** Checks *)

Definition clic_check_initialized_and_not_parsed (g : clic_globals)
  : outcome unit :=
  if negb (is_init g) then Failed "clic has not been initialized"
  else if is_parsed g then
    Failed "clic has already parsed command line arguments"
  else Ret tt.

Definition name_char_ok (c : ascii) : bool :=
  isalpha c || Ascii.eqb c "-" || Ascii.eqb c "_".

(** The [for] loop of [clic_check_name_correctness]. *)
Fixpoint check_name_chars (s : string) : outcome unit :=
  match s with
  | EmptyString => Ret tt
  | String c s' =>
      if negb (name_char_ok c)
      then Failed "clic: invalid parameter/argument name"
      else check_name_chars s'
  end.

(** Returns the characters behind [name] once the pointer is known not to
    be null, for the callers that go on to read them. *)
Definition clic_check_name_correctness (name : cstr) : outcome string :=
  match name with
  | None => Failed "clic: invalid parameter/argument name"
  | Some s =>
      if negb (isalpha (char_at s 0))
      then Failed "clic: invalid parameter/argument name"
      else check! check_name_chars s in Ret s
  end.

(** [clic_check_param_or_arg_declaration]: the list walk sets
    [is_declared] when an entry of the scope carries the name. *)
Definition param_or_arg_is_declared (g : clic_globals) (subcommand_id : Z)
    (name : string) : bool :=
  existsb (fun param_or_arg =>
             Z.eqb subcommand_id (pa_subcommand_id param_or_arg)
             && streq name (pa_name param_or_arg))
          (params_and_args g).

Definition clic_check_param_or_arg_declaration (g : clic_globals)
    (subcommand_id : Z) (param_or_arg_name : cstr)
    (should_be_declared : bool) : outcome unit :=
  let! name := clic_check_name_correctness param_or_arg_name in
  let is_declared := param_or_arg_is_declared g subcommand_id name in
  if should_be_declared && negb is_declared then
    Failed "clic: parameter/argument has not been declared in this scope"
  else if negb should_be_declared && is_declared then
    Failed "clic: parameter/argument has already been declared in this scope"
  else Ret tt.

(** [strcmp] against the name stored in a scope. The scopes of
    [subcommand_scopes], the only ones compared, carry a name that went
    through [clic_check_name_correctness], hence never null (see
    [registry_inv]); a null name compares unequal here. *)
Definition scope_named (name : string) (scope : clic_scope) : bool :=
  match subcommand_name scope with
  | Some n => streq name n
  | None => false
  end.

Definition clic_check_subcommmand_declaration (g : clic_globals)
    (subcommand_id : Z) (subcommand_name : cstr)
    (should_be_declared : bool) : outcome unit :=
  (* if should_be_declared, only subcommand_id is checked *)
  if negb (Z.eqb subcommand_id 0) then
    if should_be_declared then
      if existsb (fun scope => Z.eqb subcommand_id (sc_subcommand_id scope))
                 (subcommand_scopes g)
      then Ret tt
      else Failed "clic: subcommand has not been declared"
    else
      let! name := clic_check_name_correctness subcommand_name in
      if existsb (fun scope =>
                    Z.eqb subcommand_id (sc_subcommand_id scope)
                    && scope_named name scope)
                 (subcommand_scopes g)
      then Failed "clic: subcommand has already been declared"
      else Ret tt
  else if negb should_be_declared then
    Failed "clic: 0 is already implicitely used as the main scope identifier"
  else Ret tt.

(** ** Declarations *)

(** [clic_add_to_list] : the element becomes the last of the list. Its
    own [next] is left as the caller set it: null for a scope, an entry
    and a permitted value, which are assigned from a compound literal,
    and indeterminate for a flag name, whose node comes from [malloc]
    and gets its two characters only (see [walk_flag_names]). *)
Definition clic_add_to_list {A} (l : list A) (elem : A) : list A :=
  l ++ [elem].

Definition set_flag_names (g : clic_globals) (l : list string) :=
  {| is_init := is_init g; is_parsed := is_parsed g;
     flag_names := l; params_and_args := params_and_args g;
     string_options := string_options g;
     subcommand_scopes := subcommand_scopes g;
     metadata := metadata g; main_scope := main_scope g |}.

Definition set_params_and_args (g : clic_globals)
    (l : list clic_param_or_arg) :=
  {| is_init := is_init g; is_parsed := is_parsed g;
     flag_names := flag_names g; params_and_args := l;
     string_options := string_options g;
     subcommand_scopes := subcommand_scopes g;
     metadata := metadata g; main_scope := main_scope g |}.

Definition set_string_options (g : clic_globals)
    (l : list clic_string_option) :=
  {| is_init := is_init g; is_parsed := is_parsed g;
     flag_names := flag_names g; params_and_args := params_and_args g;
     string_options := l;
     subcommand_scopes := subcommand_scopes g;
     metadata := metadata g; main_scope := main_scope g |}.

Definition set_subcommand_scopes (g : clic_globals) (l : list clic_scope) :=
  {| is_init := is_init g; is_parsed := is_parsed g;
     flag_names := flag_names g; params_and_args := params_and_args g;
     string_options := string_options g;
     subcommand_scopes := l;
     metadata := metadata g; main_scope := main_scope g |}.

Definition set_is_parsed (g : clic_globals) :=
  {| is_init := is_init g; is_parsed := true;
     flag_names := flag_names g; params_and_args := params_and_args g;
     string_options := string_options g;
     subcommand_scopes := subcommand_scopes g;
     metadata := metadata g; main_scope := main_scope g |}.

(** No check of any kind: the life-cycle bit [is_parsed] and the four
    lists are left as they are, the metadata and the main scope (whose
    compound literal leaves [subcommand_id] at 0) are overwritten. *)
Definition clic_init (program version license description : cstr)
    (accept_unnamed_arguments : Z) (g : clic_globals) : clic_globals :=
  {| is_init := true; is_parsed := is_parsed g;
     flag_names := flag_names g; params_and_args := params_and_args g;
     string_options := string_options g;
     subcommand_scopes := subcommand_scopes g;
     metadata := {| version := version; license := license |};
     main_scope := {| sc_subcommand_id := 0;
                      subcommand_name := program;
                      sc_description := description;
                      accept_unnamed_arguments := accept_unnamed_arguments |}
  |}.

Definition clic_add_subcommand (subcommand_id : Z) (name description : cstr)
    (accept_unnamed_arguments : Z) (g : clic_globals)
  : outcome clic_globals :=
  check! clic_check_initialized_and_not_parsed g in
  check! clic_check_name_correctness name in
  check! clic_check_subcommmand_declaration g subcommand_id name false in
  let subcommand_scope :=
    {| sc_subcommand_id := subcommand_id;
       subcommand_name := name;
       sc_description := description;
       accept_unnamed_arguments := accept_unnamed_arguments |} in
  Ret (set_subcommand_scopes g
         (clic_add_to_list (subcommand_scopes g) subcommand_scope)).

(** The type-specific ("inconsistent") fields of an entry; a designated
    initializer leaves the fields it does not name at zero. *)
Record inconsistent_data := mk_inconsistent {
  i_scalar_default_value : Z;
  i_scalar_variable : option loc;
  i_mask : Z;
  i_string_default_value : cstr;
  i_string_variable : option loc;
  i_restrict_to_declared_options : Z
}.

Definition clic_add_param_or_arg (subcommand_id : Z) (name description : cstr)
    (type : clic_type) (is_required : bool) (data : inconsistent_data)
    (g : clic_globals) : outcome clic_globals :=
  check! clic_check_initialized_and_not_parsed g in
  let! n := clic_check_name_correctness name in
  check! clic_check_subcommmand_declaration g subcommand_id None true in
  check! clic_check_param_or_arg_declaration g subcommand_id name false in
  let param_or_arg :=
    {| pa_subcommand_id := subcommand_id;
       pa_name := n;
       pa_description := description;
       pa_type := type;
       pa_is_required := is_required;
       scalar_default_value := i_scalar_default_value data;
       scalar_variable := i_scalar_variable data;
       mask := i_mask data;
       string_default_value := i_string_default_value data;
       string_variable := i_string_variable data;
       restrict_to_declared_options := i_restrict_to_declared_options data
    |} in
  Ret (set_params_and_args g
         (clic_add_to_list (params_and_args g) param_or_arg)).

(** The two-byte buffer [{name, 0}] read as a string: one character, or
    none when [name] is the terminator itself. *)
Definition flag_name_buffer (name : ascii) : string :=
  if Ascii.eqb name zero then EmptyString else String name EmptyString.

(** [clic_add_to_list] on [flag_names]: when the list has a node, the
    new one is stored in the [next] of the last, [list->end->next = elem].
    Once the cleanup has freed the nodes, that is a store through a
    dangling pointer. *)
Definition link_flag_name (g : clic_globals) (flag_name : string)
  : outcome clic_globals :=
  if is_parsed g && negb (bool_decide (flag_names g = [])) then Undefined
  else Ret (set_flag_names g (clic_add_to_list (flag_names g) flag_name)).

(** The name buffer is linked into [flag_names] before
    [clic_add_param_or_arg] runs the life-cycle check. *)
Definition clic_add_param_flag (subcommand_id : Z) (name : ascii)
    (description : cstr) (variable : option loc) (mask : Z)
    (g : clic_globals) : outcome clic_globals :=
  let flag_name := flag_name_buffer name in
  let! g := link_flag_name g flag_name in
  clic_add_param_or_arg subcommand_id (Some flag_name) description
    CLIC_FLAG false
    {| i_scalar_default_value := 0; i_scalar_variable := variable;
       i_mask := mask; i_string_default_value := None;
       i_string_variable := None; i_restrict_to_declared_options := 0 |} g.

Definition clic_add_param_bool (subcommand_id : Z) (name description : cstr)
    (default_value : Z) (variable : option loc) (mask : Z)
    (g : clic_globals) : outcome clic_globals :=
  clic_add_param_or_arg subcommand_id name description CLIC_BOOL false
    {| i_scalar_default_value := default_value;
       i_scalar_variable := variable;
       i_mask := mask; i_string_default_value := None;
       i_string_variable := None; i_restrict_to_declared_options := 0 |} g.

Definition clic_add_param_int (subcommand_id : Z) (name description : cstr)
    (default_value : Z) (variable : option loc)
    (g : clic_globals) : outcome clic_globals :=
  clic_add_param_or_arg subcommand_id name description CLIC_INT false
    {| i_scalar_default_value := default_value;
       i_scalar_variable := variable;
       i_mask := 0; i_string_default_value := None;
       i_string_variable := None; i_restrict_to_declared_options := 0 |} g.

Definition clic_add_param_string (subcommand_id : Z) (name description : cstr)
    (default_value : cstr) (variable : option loc)
    (restrict_to_declared_options : Z)
    (g : clic_globals) : outcome clic_globals :=
  clic_add_param_or_arg subcommand_id name description CLIC_STRING false
    {| i_scalar_default_value := 0; i_scalar_variable := None;
       i_mask := 0; i_string_default_value := default_value;
       i_string_variable := variable;
       i_restrict_to_declared_options := restrict_to_declared_options |} g.

Definition clic_add_arg_int (subcommand_id : Z) (name description : cstr)
    (variable : option loc) (g : clic_globals) : outcome clic_globals :=
  clic_add_param_or_arg subcommand_id name description CLIC_INT true
    {| i_scalar_default_value := 0; i_scalar_variable := variable;
       i_mask := 0; i_string_default_value := None;
       i_string_variable := None; i_restrict_to_declared_options := 0 |} g.

Definition clic_add_arg_string (subcommand_id : Z) (name description : cstr)
    (variable : option loc) (restrict_to_declared_options : Z)
    (g : clic_globals) : outcome clic_globals :=
  clic_add_param_or_arg subcommand_id name description CLIC_STRING true
    {| i_scalar_default_value := 0; i_scalar_variable := None;
       i_mask := 0; i_string_default_value := None;
       i_string_variable := variable;
       i_restrict_to_declared_options := restrict_to_declared_options |} g.

Definition clic_add_string_option (subcommand_id : Z)
    (param_or_arg_name value : cstr) (g : clic_globals)
  : outcome clic_globals :=
  check! clic_check_initialized_and_not_parsed g in
  check! clic_check_subcommmand_declaration g subcommand_id None true in
  check! clic_check_param_or_arg_declaration g subcommand_id
           param_or_arg_name true in
  let string_option :=
    {| so_subcommand_id := subcommand_id;
       so_param_or_arg_name := param_or_arg_name;
       so_value := value |} in
  Ret (set_string_options g
         (clic_add_to_list (string_options g) string_option)).

(** ** Parsing *)

(** The caller's variables: the [int] cells that [int *] arguments
    designate and the [char *] cells that [char **] arguments designate. *)
Inductive val := Vint (z : Z) | Vstr (s : cstr).

Abbreviation mem := (gmap loc val).

(** [*p = v] for an [int *p] *)
Definition store (p : option loc) (v : Z) (m : mem) : outcome mem :=
  match p with
  | None => Undefined
  | Some l => Ret (<[l := Vint v]> m)
  end.

(** The three ways [clic.h] can be built: [CLIC_DUMP_SYNOPSIS] defined,
    else [CLIC_DUMP_OPTIONS] defined, else neither. *)
Inductive build_mode := CLIC_DUMP_SYNOPSIS | CLIC_DUMP_OPTIONS | NORMAL.

Definition clic_print_help {A} (scope : clic_scope) : outcome A :=
  Exited None.
Definition clic_print_options {A} : outcome A := Exited None.
Definition clic_print_synopsis {A} : outcome A := Exited None.

(** arg1 and arg2 are command line arguments; returns the number of them
    used to parse param_or_arg. The body is the source's: nothing is
    checked, nothing is stored, 0 is returned. *)
Definition clic_parse_param_or_arg (param_or_arg : clic_param_or_arg)
    (arg1 arg2 : cstr) : Z := 0.

Definition argc_of (argv : list string) : Z := Z.of_nat (length argv).

(** [argv[i]] for an argument vector of [argc = length argv] strings
    followed by the null pointer that ends it: the array has the indices
    0 to [argc], and a read at any other index is outside it. *)
Definition argv_at (argv : list string) (i : Z) : outcome cstr :=
  if (i <? 0) || (argc_of argv <? i) then Undefined
  else Ret (argv !! Z.to_nat i).

(** detect subcommand: the first scope of the list named [argv[1]],
    which is read only when [argc > 1] and is then a string. *)
Definition detect_subcommand (g : clic_globals) (argv : list string)
  : clic_scope * Z :=
  if 1 <? argc_of argv then
    match argv_at argv 1 with
    | Ret (Some a) =>
        match find (scope_named a) (subcommand_scopes g) with
        | Some scope => (scope, 1)
        | None => (main_scope g, 0)
        end
    | _ => (main_scope g, 0)
    end
  else (main_scope g, 0).

(** The name a token designates when it has the syntax of a parameter:
    [-n], [--no-name] or [--name]. *)
Definition parameter_name (s : string) : option string :=
  if Ascii.eqb (char_at s 0) "-" && isalpha (char_at s 1)
     && Nat.eqb (String.length s) 2
  then Some (string_drop 1 s)
  else if has_prefix "--no-" s then Some (string_drop 5 s)
  else if has_prefix "--" s then Some (string_drop 2 s)
  else None.

Definition param_matches (active_scope : clic_scope) (name : string)
    (param : clic_param_or_arg) : bool :=
  Z.eqb (sc_subcommand_id active_scope) (pa_subcommand_id param)
  && streq name (pa_name param).

(** What one turn of the [while] loop decides. *)
Inductive loop_step := Continue (nb : Z) | Break (nb : Z).

(** eat parameters: one turn of the loop, entered with
    [nb_processed_arguments = nb]. *)
Definition eat_parameter (g : clic_globals) (active_scope : clic_scope)
    (argv : list string) (nb : Z) : outcome loop_step :=
  let! token := argv_at argv (1 + nb) in
  match token with
  | None => Ret (Break nb)
  | Some s =>
      if streq s "--" then Ret (Break (nb + 1))
      else
        match parameter_name s with
        | None => (* not a parameter *) Ret (Break nb)
        | Some name =>
            match find (param_matches active_scope name)
                       (params_and_args g) with
            | Some param =>
                let! arg2 := argv_at argv (1 + nb + 1) in
                Ret (Continue
                       (nb + clic_parse_param_or_arg param (Some s) arg2))
            | None =>
                if streq s "--help" then clic_print_help active_scope
                else if streq s "--version"
                        && bool_decide (version (metadata g) <> None)
                then Exited (version (metadata g))
                else (* TODO: problem ("parameter not recognised") *)
                  Ret (Continue nb)
            end
        end
  end.

Fixpoint eat_parameters (fuel : nat) (g : clic_globals)
    (active_scope : clic_scope) (argv : list string) (nb : Z) : outcome Z :=
  match fuel with
  | O => OutOfFuel
  | S fuel' =>
      let! step := eat_parameter g active_scope argv nb in
      match step with
      | Break nb' => Ret nb'
      | Continue nb' => eat_parameters fuel' g active_scope argv nb'
      end
  end.

(** eat named arguments: the required entries of the active scope, in
    declaration order. A missing token is a TODO of the source: nothing
    happens and the entry is handed the null pointer. *)
Definition eat_named_argument (active_scope : clic_scope)
    (argv : list string) (nb : Z) (arg : clic_param_or_arg) : outcome Z :=
  if negb (Z.eqb (sc_subcommand_id active_scope) (pa_subcommand_id arg))
     || negb (pa_is_required arg)
  then Ret nb
  else
    let! s := argv_at argv (1 + nb) in
    Ret (nb + clic_parse_param_or_arg arg s None).

Fixpoint eat_named_arguments_of (args : list clic_param_or_arg)
    (active_scope : clic_scope) (argv : list string) (nb : Z) : outcome Z :=
  match args with
  | [] => Ret nb
  | arg :: args' =>
      let! nb' := eat_named_argument active_scope argv nb arg in
      eat_named_arguments_of args' active_scope argv nb'
  end.

Definition eat_named_arguments (g : clic_globals) (active_scope : clic_scope)
    (argv : list string) (nb : Z) : outcome Z :=
  eat_named_arguments_of (params_and_args g) active_scope argv nb.

(** check if there are unnamed arguments: the condition of the source,
    whose branch is an empty TODO. *)
Definition too_many_arguments (active_scope : clic_scope)
    (argv : list string) (nb : Z) : bool :=
  Z.eqb (accept_unnamed_arguments active_scope) 0
  && (1 + nb <? argc_of argv).

(** [clic_list_safe_for] over [flag_names]: the walk reads the [next] of
    each node and stops at a null one. The last node of [flag_names]
    never had its [next] set, so that with a flag registered the walk
    reads an indeterminate pointer, and frees or follows it. *)
Definition walk_flag_names (g : clic_globals) : outcome unit :=
  if bool_decide (flag_names g = []) then Ret tt else Undefined.

(** cleanup: the nodes of the four lists are freed, [flag_names] first.
    The heads are not reset: the registry is left as it is, its lists
    now pointing to freed nodes. Once [is_parsed] is set no call walks
    them again; [clic_add_param_flag] alone still stores through the
    last node of [flag_names] (see [link_flag_name]). *)
Definition clic_cleanup (g : clic_globals) : outcome clic_globals :=
  check! walk_flag_names g in Ret g.

(** The state of [clic_parse] when it enters the parameter loop. *)
Record parse_state := mk_parse_state {
  ps_globals : clic_globals;
  ps_active_scope : clic_scope;
  ps_nb_processed_arguments : Z;
  ps_mem : mem
}.

(** [clic_parse] up to and including [*subcommand_id = ...]. *)
Definition clic_parse_detect (mode : build_mode) (argv : list string)
    (subcommand_id : option loc) (g : clic_globals) (m : mem)
  : outcome parse_state :=
  check! clic_check_initialized_and_not_parsed g in
  let g := set_is_parsed g in
  match mode with
  | CLIC_DUMP_SYNOPSIS => clic_print_synopsis
  | CLIC_DUMP_OPTIONS => clic_print_options
  | NORMAL =>
      let (active_scope, nb) := detect_subcommand g argv in
      let! m' := store subcommand_id (sc_subcommand_id active_scope) m in
      Ret (mk_parse_state g active_scope nb m')
  end.

(** [clic_parse] from the parameter loop to [return]. *)
Definition clic_parse_eat (fuel : nat) (argv : list string)
    (st : parse_state) : outcome (Z * clic_globals * mem) :=
  let g := ps_globals st in
  let active_scope := ps_active_scope st in
  let! nb := eat_parameters fuel g active_scope argv
               (ps_nb_processed_arguments st) in
  let! nb := eat_named_arguments g active_scope argv nb in
  let _ := too_many_arguments active_scope argv nb in
  let! g := clic_cleanup g in
  Ret (nb, g, ps_mem st).

Definition clic_parse (mode : build_mode) (fuel : nat) (argv : list string)
    (subcommand_id : option loc) (g : clic_globals) (m : mem)
  : outcome (Z * clic_globals * mem) :=
  let! st := clic_parse_detect mode argv subcommand_id g m in
  clic_parse_eat fuel argv st.

(** ** The interface as a whole *)

(** One call of the public interface, with its arguments. *)
Inductive api_call :=
| Call_init (program version license description : cstr)
    (accept_unnamed_arguments : Z)
| Call_add_subcommand (subcommand_id : Z) (name description : cstr)
    (accept_unnamed_arguments : Z)
| Call_add_param_flag (subcommand_id : Z) (name : ascii)
    (description : cstr) (variable : option loc) (mask : Z)
| Call_add_param_bool (subcommand_id : Z) (name description : cstr)
    (default_value : Z) (variable : option loc) (mask : Z)
| Call_add_param_int (subcommand_id : Z) (name description : cstr)
    (default_value : Z) (variable : option loc)
| Call_add_param_string (subcommand_id : Z) (name description : cstr)
    (default_value : cstr) (variable : option loc)
    (restrict_to_declared_options : Z)
| Call_add_arg_int (subcommand_id : Z) (name description : cstr)
    (variable : option loc)
| Call_add_arg_string (subcommand_id : Z) (name description : cstr)
    (variable : option loc) (restrict_to_declared_options : Z)
| Call_add_string_option (subcommand_id : Z)
    (param_or_arg_name value : cstr)
| Call_parse (fuel : nat) (argv : list string) (subcommand_id : option loc).

Definition is_parse (c : api_call) : bool :=
  match c with
  | Call_parse _ _ _ => true
  | _ => false
  end.

Definition keep_mem (m : mem) (o : outcome clic_globals)
  : outcome (clic_globals * mem) :=
  let! g := o in Ret (g, m).

(** The effect of a call on the registry and on the caller's variables. *)
Definition run (mode : build_mode) (c : api_call)
    (gm : clic_globals * mem) : outcome (clic_globals * mem) :=
  let (g, m) := gm in
  match c with
  | Call_init p v l d a => Ret (clic_init p v l d a g, m)
  | Call_add_subcommand i n d a => keep_mem m (clic_add_subcommand i n d a g)
  | Call_add_param_flag i n d v k =>
      keep_mem m (clic_add_param_flag i n d v k g)
  | Call_add_param_bool i n d dv v k =>
      keep_mem m (clic_add_param_bool i n d dv v k g)
  | Call_add_param_int i n d dv v =>
      keep_mem m (clic_add_param_int i n d dv v g)
  | Call_add_param_string i n d dv v r =>
      keep_mem m (clic_add_param_string i n d dv v r g)
  | Call_add_arg_int i n d v => keep_mem m (clic_add_arg_int i n d v g)
  | Call_add_arg_string i n d v r =>
      keep_mem m (clic_add_arg_string i n d v r g)
  | Call_add_string_option i n v =>
      keep_mem m (clic_add_string_option i n v g)
  | Call_parse fuel argv p =>
      let! r := clic_parse mode fuel argv p g m in
      Ret (r.1.2, r.2)
  end.

(** A program is a sequence of calls; it stops at the first one that does
    not return. *)
Fixpoint run_all (mode : build_mode) (cs : list api_call)
    (gm : clic_globals * mem) : outcome (clic_globals * mem) :=
  match cs with
  | [] => Ret gm
  | c :: cs' => let! gm' := run mode c gm in run_all mode cs' gm'
  end.

(** The registries a program can be in: those that some sequence of
    returning calls builds from the zeroed static storage. *)
Inductive reachable (mode : build_mode) : clic_globals -> Prop :=
| reachable_zero : reachable mode clic_globals_zero
| reachable_run c g m g' m' :
    reachable mode g ->
    run mode c (g, m) = Ret (g', m') ->
    reachable mode g'.

(** The three states of the life cycle, read off the two bits. *)
Inductive lifecycle := Uninitialized | Declaring | Parsed.

Definition state_of (g : clic_globals) : lifecycle :=
  if negb (is_init g) then Uninitialized
  else if is_parsed g then Parsed
  else Declaring.

(** * Vocabulary of the properties *)

(** ** Names *)

(** A letter of the basic Latin alphabet, upper or lower case. *)
Definition alphabetic (c : ascii) : Prop :=
  let n := nat_of_ascii c in
  (65 <= n <= 90)%nat \/ (97 <= n <= 122)%nat.

(** The contract of the validator, in the words of the specification: the
    name is non-empty, its first character is alphabetic, and every
    character is alphabetic, a dash or an underscore. *)
Definition valid_name (s : string) : Prop :=
  s <> EmptyString
  /\ (exists c rest, s = String c rest /\ alphabetic c)
  /\ Forall (fun c => alphabetic c \/ c = "-"%char \/ c = "_"%char)
            (list_ascii_of_string s).

(** ** What is declared in a registry *)

(** A scope identifier designates a scope: the main one, or a registered
    subcommand. *)
Definition scope_declared (g : clic_globals) (subcommand_id : Z) : Prop :=
  subcommand_id = 0
  \/ exists scope, scope ∈ subcommand_scopes g
                   /\ sc_subcommand_id scope = subcommand_id.

(** An entry of the scope carries the name. *)
Definition entry_declared (g : clic_globals) (subcommand_id : Z)
    (name : string) : Prop :=
  exists param_or_arg, param_or_arg ∈ params_and_args g
    /\ pa_subcommand_id param_or_arg = subcommand_id
    /\ pa_name param_or_arg = name.

(** A registered subcommand carries both the identifier and the name. *)
Definition subcommand_registered (g : clic_globals) (subcommand_id : Z)
    (name : string) : Prop :=
  exists scope, scope ∈ subcommand_scopes g
    /\ sc_subcommand_id scope = subcommand_id
    /\ subcommand_name scope = Some name.

(** The scope is registered under the token that follows the program
    name. *)
Definition names_subcommand (g : clic_globals) (argv : list string)
    (scope : clic_scope) : Prop :=
  scope ∈ subcommand_scopes g
  /\ exists tok, argv !! 1%nat = Some tok /\ subcommand_name scope = Some tok.

(** ** When a declaration is accepted *)

(** The conditions under which [clic_add_subcommand] registers a scope. *)
Definition subcommand_accepted (g : clic_globals) (subcommand_id : Z)
    (name : cstr) : Prop :=
  state_of g = Declaring
  /\ subcommand_id <> 0
  /\ exists n, name = Some n /\ valid_name n
               /\ ~ subcommand_registered g subcommand_id n.

(** The conditions under which [clic_add_param_or_arg] registers an
    entry. *)
Definition entry_accepted (g : clic_globals) (subcommand_id : Z)
    (name : cstr) : Prop :=
  state_of g = Declaring
  /\ scope_declared g subcommand_id
  /\ exists n, name = Some n /\ valid_name n
               /\ ~ entry_declared g subcommand_id n.

Definition new_entry (subcommand_id : Z) (n : string) (description : cstr)
    (type : clic_type) (is_required : bool) (data : inconsistent_data) :=
  mk_param_or_arg subcommand_id n description type is_required
    (i_scalar_default_value data) (i_scalar_variable data) (i_mask data)
    (i_string_default_value data) (i_string_variable data)
    (i_restrict_to_declared_options data).

(** The conditions under which [clic_add_string_option] registers a
    value. *)
Definition string_option_accepted (g : clic_globals) (subcommand_id : Z)
    (name : cstr) : Prop :=
  state_of g = Declaring
  /\ scope_declared g subcommand_id
  /\ exists n, name = Some n /\ valid_name n
               /\ entry_declared g subcommand_id n.

Definition is_init_call (c : api_call) : bool :=
  match c with
  | Call_init _ _ _ _ _ => true
  | _ => false
  end.

(** ** Invariants of the registry *)

(** No flag name sits in a freed node: a registry that has been parsed
    holds no flag name. *)
Definition no_freed_flag_name (g : clic_globals) : Prop :=
  is_parsed g = true -> flag_names g = [].

Definition entry_key (param_or_arg : clic_param_or_arg) : Z * string :=
  (pa_subcommand_id param_or_arg, pa_name param_or_arg).

Record registry_inv (g : clic_globals) : Prop := {
  (* the main scope is the scope 0 *)
  inv_main_scope : sc_subcommand_id (main_scope g) = 0;
  (* a subcommand has a non-zero identifier and a valid name *)
  inv_scopes :
    Forall (fun scope =>
              sc_subcommand_id scope <> 0
              /\ exists n, subcommand_name scope = Some n /\ valid_name n)
           (subcommand_scopes g);
  (* an entry has a valid name and belongs to a declared scope *)
  inv_entries :
    Forall (fun param_or_arg =>
              valid_name (pa_name param_or_arg)
              /\ scope_declared g (pa_subcommand_id param_or_arg))
           (params_and_args g);
  (* no two entries share their scope and their name *)
  inv_unique : NoDup (entry_key <$> params_and_args g)
}.

(** ** Example programs *)

(** The variables of the example programs. *)
Definition verbose : loc := 1%positive.
Definition invoked : loc := 2%positive.
Definition mode_variable : loc := 3%positive.
Definition count : loc := 4%positive.

(** The declarations of the demonstration program: one flag in the main
    scope. *)
Definition demo_calls : list api_call :=
  [ Call_init (Some "demo") (Some "1.0.0") (Some "GPLv3")
      (Some "Dumb program showcasing clic.h") 1;
    Call_add_param_flag 0 "v" (Some "increase verbosity") (Some verbose) 0 ].

Definition demo_memory : mem := {[ verbose := Vint 0 ]}.

Definition demo_registry : clic_globals :=
  Eval vm_compute in
    match run_all NORMAL demo_calls (clic_globals_zero, demo_memory) with
    | Ret gm => gm.1
    | _ => clic_globals_zero
    end.

(** A program with two subcommands, a restricted string parameter and a
    required argument. *)
Definition tool_calls : list api_call :=
  [ Call_init (Some "tool") None None (Some "A tool") 0;
    Call_add_subcommand 1 (Some "build") (Some "build things") 0;
    Call_add_subcommand 2 (Some "test") (Some "test things") 0;
    Call_add_param_flag 0 "v" (Some "increase verbosity") (Some verbose) 0;
    Call_add_param_string 0 (Some "mode") (Some "how to run") (Some "fast")
      (Some mode_variable) 1;
    Call_add_string_option 0 (Some "mode") (Some "fast");
    Call_add_string_option 0 (Some "mode") (Some "slow");
    Call_add_arg_int 2 (Some "count") (Some "how many") (Some count) ].

Definition tool_memory : mem :=
  {[ verbose := Vint 0; mode_variable := Vstr None; count := Vint 0 ]}.

Definition tool_registry : clic_globals :=
  Eval vm_compute in
    match run_all NORMAL tool_calls (clic_globals_zero, tool_memory) with
    | Ret gm => gm.1
    | _ => clic_globals_zero
    end.

(** The tool program after its first five declarations. *)
Definition tool_base_registry : clic_globals :=
  Eval vm_compute in
    match run_all NORMAL (take 5 tool_calls)
            (clic_globals_zero, tool_memory) with
    | Ret gm => gm.1
    | _ => clic_globals_zero
    end.

(** A program without flag: one subcommand, a boolean parameter of the
    main scope and an integer parameter of the subcommand. *)
Definition color : loc := 5%positive.

Definition plain_calls : list api_call :=
  [ Call_init (Some "plain") (Some "0.3") None (Some "A plain tool") 1;
    Call_add_subcommand 1 (Some "build") (Some "build things") 1;
    Call_add_param_bool 0 (Some "color") (Some "colored output") 1
      (Some color) 0;
    Call_add_param_int 1 (Some "jobs") (Some "parallel jobs") 4
      (Some count) ].

Definition plain_memory : mem := {[ color := Vint 1; count := Vint 4 ]}.

Definition plain_registry : clic_globals :=
  Eval vm_compute in
    match run_all NORMAL plain_calls (clic_globals_zero, plain_memory) with
    | Ret gm => gm.1
    | _ => clic_globals_zero
    end.

(** ** The shape of what a declaration registers *)

Definition is_flag (param_or_arg : clic_param_or_arg) : bool :=
  match pa_type param_or_arg with
  | CLIC_FLAG => true
  | _ => false
  end.

(** The type-specific fields of an entry, as the designated initializers
    of the eight declaration functions leave them: a field that the
    function of the entry's type does not name is zero. *)
Definition entry_shape (e : clic_param_or_arg) : Prop :=
  match pa_type e with
  | CLIC_FLAG =>
      pa_is_required e = false /\ scalar_default_value e = 0
      /\ string_default_value e = None /\ string_variable e = None
      /\ restrict_to_declared_options e = 0
      /\ exists c, alphabetic c /\ pa_name e = String c EmptyString
  | CLIC_BOOL =>
      pa_is_required e = false
      /\ string_default_value e = None /\ string_variable e = None
      /\ restrict_to_declared_options e = 0
  | CLIC_INT =>
      mask e = 0
      /\ string_default_value e = None /\ string_variable e = None
      /\ restrict_to_declared_options e = 0
      /\ (pa_is_required e = true -> scalar_default_value e = 0)
  | CLIC_STRING =>
      mask e = 0
      /\ scalar_default_value e = 0 /\ scalar_variable e = None
      /\ (pa_is_required e = true -> string_default_value e = None)
  end.

(** What one returning declaration does to the registry: it appends one
    scope, or one entry (with its name buffer when the entry is a flag),
    or one permitted value, and touches nothing else. *)
Inductive declared_by : clic_globals -> clic_globals -> Prop :=
| declares_subcommand g i name d a n :
    name = Some n -> valid_name n -> i <> 0 ->
    ~ subcommand_registered g i n ->
    declared_by g
      (set_subcommand_scopes g
         (subcommand_scopes g ++ [mk_scope i name d a]))
| declares_entry g e :
    valid_name (pa_name e) ->
    scope_declared g (pa_subcommand_id e) ->
    ~ entry_declared g (pa_subcommand_id e) (pa_name e) ->
    entry_shape e ->
    declared_by g
      (set_params_and_args
         (set_flag_names g
            (flag_names g ++ if is_flag e then [pa_name e] else []))
         (params_and_args g ++ [e]))
| declares_string_option g i name v n :
    name = Some n -> valid_name n ->
    scope_declared g i -> entry_declared g i n ->
    declared_by g
      (set_string_options g
         (string_options g ++ [mk_string_option i name v])).

(** The registry holds a permitted value only for an entry it holds. *)
Definition string_option_refers (g : clic_globals)
    (string_option : clic_string_option) : Prop :=
  exists n, so_param_or_arg_name string_option = Some n
            /\ entry_declared g (so_subcommand_id string_option) n.

(** The scope has no required entry, that is, no named argument. *)
Definition no_named_argument (g : clic_globals) (active_scope : clic_scope)
  : Prop :=
  forall e, e ∈ params_and_args g ->
    pa_subcommand_id e = sc_subcommand_id active_scope ->
    pa_is_required e = false.

(** * Properties *)

(** ** The name validator *)

Lemma isalpha_alphabetic c : isalpha c = true <-> alphabetic c.
Proof.
  unfold isalpha, alphabetic. cbv zeta.
  rewrite orb_true_iff, !andb_true_iff, !Nat.leb_le. tauto.
Qed.

Lemma name_char_ok_spec c :
  name_char_ok c = true <->
  alphabetic c \/ c = "-"%char \/ c = "_"%char.
Proof.
  unfold name_char_ok.
  rewrite !orb_true_iff, isalpha_alphabetic, !Ascii.eqb_eq. tauto.
Qed.

Lemma check_name_chars_cases s :
  (check_name_chars s = Ret tt
   /\ Forall (fun c => alphabetic c \/ c = "-"%char \/ c = "_"%char)
             (list_ascii_of_string s))
  \/ (check_name_chars s = Failed "clic: invalid parameter/argument name"
      /\ ~ Forall (fun c => alphabetic c \/ c = "-"%char \/ c = "_"%char)
                  (list_ascii_of_string s)).
Proof.
  induction s as [|c s IH]; simpl.
  - left. split; [reflexivity | constructor].
  - destruct (name_char_ok c) eqn:Hc; simpl.
    + apply name_char_ok_spec in Hc.
      destruct IH as [[-> HF] | [-> HF]].
      * left. split; [reflexivity | by constructor].
      * right. split; [reflexivity |]. intros H. inversion H; subst. tauto.
    + right. split; [reflexivity |]. intros H. inversion H; subst.
      apply name_char_ok_spec in H2. congruence.
Qed.

Lemma first_char_alphabetic s :
  isalpha (char_at s 0) = true <->
  exists c rest, s = String c rest /\ alphabetic c.
Proof.
  destruct s as [|c rest]; simpl.
  - split; [discriminate | intros (? & ? & ? & _); discriminate].
  - unfold char_at. simpl. rewrite isalpha_alphabetic. split.
    + intros H. by exists c, rest.
    + intros (c' & r' & Heq & H). by inversion Heq; subst.
Qed.

(** What the validator answers, case by case. *)
Lemma clic_check_name_correctness_cases name :
  (exists s, name = Some s /\ valid_name s
             /\ clic_check_name_correctness name = Ret s)
  \/ ((forall s, name = Some s -> ~ valid_name s)
      /\ clic_check_name_correctness name
         = Failed "clic: invalid parameter/argument name").
Proof.
  destruct name as [s|]; simpl; [| right; split; [discriminate | done]].
  destruct (isalpha (char_at s 0)) eqn:Hfirst; simpl.
  - apply first_char_alphabetic in Hfirst.
    destruct (check_name_chars_cases s) as [[-> HF] | [-> HF]]; simpl.
    + left. exists s. repeat split; try done.
      destruct Hfirst as (c & r & -> & _). discriminate.
    + right. split; [| done]. intros s' [= <-] (_ & _ & H). tauto.
  - right. split; [| done]. intros s' [= <-] (_ & H & _).
    apply first_char_alphabetic in H. congruence.
Qed.

(** C8. The name validator accepts a name if and only if it is non-empty,
    its first character is alphabetic, and every character is alphabetic,
    a dash or an underscore; any other name (the null pointer included)
    makes it fail with a configuration error. *)
Theorem name_validator_accepts_exactly_valid_names (name : cstr) :
  (returns (clic_check_name_correctness name)
   <-> exists s, name = Some s /\ valid_name s)
  /\ (returns (clic_check_name_correctness name)
      \/ ConfigurationError (clic_check_name_correctness name)).
Proof.
  destruct (clic_check_name_correctness_cases name)
    as [(s & Hn & Hv & Hr) | [Hn Hr]]; rewrite Hr.
  - split; [| left; by exists s].
    split; [intros _; by exists s | intros _; by exists s].
  - split; [| right; by eexists].
    split; [intros [a Ha]; discriminate |].
    intros (s & Hs & Hv). exfalso. by apply (Hn s).
Qed.

(** ** The checks, case by case *)

Lemma ConfigurationError_Failed {A} msg : ConfigurationError (@Failed A msg).
Proof. by exists msg. Qed.

Lemma ConfigurationError_not_returns {A} (o : outcome A) :
  ConfigurationError o -> ~ returns o.
Proof. intros [msg ->] [a Ha]. discriminate. Qed.

Lemma ConfigurationError_bind {A B} (o : outcome A) (k : A -> outcome B) :
  ConfigurationError o -> ConfigurationError (bind o k).
Proof. intros [msg ->]. by exists msg. Qed.

Create HintDb clic.
#[local] Hint Resolve ConfigurationError_Failed : clic.
#[local] Hint Resolve ConfigurationError_bind : clic.

Lemma state_of_Declaring g :
  state_of g = Declaring <-> is_init g = true /\ is_parsed g = false.
Proof.
  unfold state_of. destruct (is_init g), (is_parsed g); simpl;
    split; try discriminate; try tauto; intros [? ?]; discriminate.
Qed.

Lemma lifecycle_check_cases g :
  (state_of g = Declaring
   /\ clic_check_initialized_and_not_parsed g = Ret tt)
  \/ (state_of g <> Declaring
      /\ ConfigurationError (clic_check_initialized_and_not_parsed g)).
Proof.
  unfold clic_check_initialized_and_not_parsed, state_of.
  destruct (is_init g), (is_parsed g); simpl;
    first [ left; split; [reflexivity | reflexivity]
          | right; split; [discriminate | auto with clic] ].
Qed.

Lemma existsb_elem_of {A} (f : A -> bool) (l : list A) :
  existsb f l = true <-> exists x, x ∈ l /\ f x = true.
Proof.
  rewrite existsb_exists. split; intros (x & Hx & Hf); exists x;
    (split; [by apply list_elem_of_In | done]).
Qed.

Lemma subcommand_should_be_declared_cases g subcommand_id name :
  (scope_declared g subcommand_id
   /\ clic_check_subcommmand_declaration g subcommand_id name true = Ret tt)
  \/ (~ scope_declared g subcommand_id
      /\ ConfigurationError
           (clic_check_subcommmand_declaration g subcommand_id name true)).
Proof.
  unfold clic_check_subcommmand_declaration, scope_declared.
  destruct (Z.eqb_spec subcommand_id 0) as [-> | Hnz]; simpl.
  - left. split; [by left | reflexivity].
  - destruct (existsb _ _) eqn:Hex.
    + left. split; [| reflexivity]. right.
      apply existsb_elem_of in Hex as (scope & Hin & Heq).
      exists scope. split; [done |]. symmetry. by apply Z.eqb_eq.
    + right. split; [| auto with clic].
      intros [? | (scope & Hin & Heq)]; [done |].
      assert (existsb (fun scope => subcommand_id =? sc_subcommand_id scope)
                      (subcommand_scopes g) = true) as Habs; [| congruence].
      apply existsb_elem_of. exists scope. split; [done |].
      apply Z.eqb_eq. by symmetry.
Qed.

Lemma streq_eq a b : streq a b = true <-> a = b.
Proof. apply String.eqb_eq. Qed.

Lemma param_or_arg_is_declared_spec g subcommand_id name :
  param_or_arg_is_declared g subcommand_id name = true
  <-> entry_declared g subcommand_id name.
Proof.
  unfold param_or_arg_is_declared, entry_declared.
  rewrite existsb_elem_of. split; intros (p & Hin & H); exists p.
  - apply andb_true_iff in H as [H1 H2].
    apply Z.eqb_eq in H1. apply streq_eq in H2. by repeat split.
  - destruct H as [H1 H2]. split; [done |].
    apply andb_true_iff. split; [by apply Z.eqb_eq | by apply streq_eq].
Qed.

Lemma param_or_arg_declaration_cases g subcommand_id name (should : bool) :
  (exists n, name = Some n /\ valid_name n
     /\ (if should then entry_declared g subcommand_id n
         else ~ entry_declared g subcommand_id n)
     /\ clic_check_param_or_arg_declaration g subcommand_id name should
        = Ret tt)
  \/ ((forall n, name = Some n -> valid_name n ->
         if should then ~ entry_declared g subcommand_id n
         else entry_declared g subcommand_id n)
      /\ ConfigurationError
           (clic_check_param_or_arg_declaration g subcommand_id name should)).
Proof.
  unfold clic_check_param_or_arg_declaration.
  destruct (clic_check_name_correctness_cases name)
    as [(n & -> & Hv & ->) | [Hn ->]]; simpl.
  - pose proof (param_or_arg_is_declared_spec g subcommand_id n) as Hd.
    destruct (param_or_arg_is_declared g subcommand_id n), should; simpl.
    + left. exists n. do 2 (split; [done |]). split; [by apply Hd | done].
    + right. split; [| auto with clic]. intros n' [= <-] _. by apply Hd.
    + right. split; [| auto with clic]. intros n' [= <-] _ H.
      apply Hd in H. discriminate.
    + left. exists n. do 2 (split; [done |]). split; [| done].
      intros H. apply Hd in H. discriminate.
  - right. split; [| auto with clic]. intros n Hs Hv. by destruct (Hn n Hs).
Qed.

(** ** The declarations, case by case *)

Lemma scope_named_spec name scope :
  scope_named name scope = true <-> subcommand_name scope = Some name.
Proof.
  unfold scope_named. destruct (subcommand_name scope) as [n|].
  - rewrite streq_eq. split; [by intros -> | by intros [= ->]].
  - split; discriminate.
Qed.

Lemma subcommand_registered_spec g subcommand_id name :
  existsb (fun scope => Z.eqb subcommand_id (sc_subcommand_id scope)
                        && scope_named name scope)
          (subcommand_scopes g) = true
  <-> subcommand_registered g subcommand_id name.
Proof.
  unfold subcommand_registered. rewrite existsb_elem_of.
  split; intros (scope & Hin & H); exists scope.
  - apply andb_true_iff in H as [H1 H2].
    apply Z.eqb_eq in H1. apply scope_named_spec in H2. by repeat split.
  - destruct H as [H1 H2]. split; [done |]. apply andb_true_iff.
    split; [by apply Z.eqb_eq | by apply scope_named_spec].
Qed.

Lemma clic_add_subcommand_cases subcommand_id name description accept g :
  (subcommand_accepted g subcommand_id name
   /\ clic_add_subcommand subcommand_id name description accept g
      = Ret (set_subcommand_scopes g
               (subcommand_scopes g
                ++ [mk_scope subcommand_id name description accept])))
  \/ (~ subcommand_accepted g subcommand_id name
      /\ ConfigurationError
           (clic_add_subcommand subcommand_id name description accept g)).
Proof.
  unfold clic_add_subcommand, subcommand_accepted.
  destruct (lifecycle_check_cases g) as [[Hst ->] | [Hst Herr]];
    [| right; split; [tauto | auto with clic]].
  simpl.
  destruct (clic_check_name_correctness_cases name)
    as [(n & -> & Hv & Hr) | [Hn Hr]]; rewrite Hr; simpl;
    [| right; split; [| auto with clic];
       intros (_ & _ & n & Hs & Hv & _); by apply (Hn n)].
  unfold clic_check_subcommmand_declaration.
  destruct (Z.eqb_spec subcommand_id 0) as [-> | Hnz]; simpl;
    [right; split; [tauto | auto with clic] |].
  unfold clic_check_name_correctness in Hr |- *. simpl in Hr |- *.
  rewrite Hr. simpl.
  pose proof (subcommand_registered_spec g subcommand_id n) as Hreg.
  destruct (existsb _ _); simpl.
  - right. split; [| auto with clic].
    intros (_ & _ & n' & [= <-] & _ & H). apply H. by apply Hreg.
  - left. split; [| reflexivity]. do 2 (split; [done |]).
    exists n. do 2 (split; [done |]). intros H. apply Hreg in H.
    discriminate.
Qed.

Lemma clic_add_param_or_arg_cases subcommand_id name description type
    is_required data g :
  (state_of g = Declaring
   /\ scope_declared g subcommand_id
   /\ exists n, name = Some n /\ valid_name n
        /\ ~ entry_declared g subcommand_id n
        /\ clic_add_param_or_arg subcommand_id name description type
             is_required data g
           = Ret (set_params_and_args g
                    (params_and_args g
                     ++ [new_entry subcommand_id n description type
                           is_required data])))
  \/ (~ entry_accepted g subcommand_id name
      /\ ConfigurationError
           (clic_add_param_or_arg subcommand_id name description type
              is_required data g)).
Proof.
  unfold clic_add_param_or_arg, entry_accepted.
  destruct (lifecycle_check_cases g) as [[Hst ->] | [Hst Herr]];
    [| right; split; [tauto | auto with clic]].
  simpl.
  destruct (clic_check_name_correctness_cases name)
    as [(n & -> & Hv & Hr) | [Hn Hr]]; rewrite Hr; simpl;
    [| right; split; [| auto with clic];
       intros (_ & _ & n & Hs & Hv & _); by apply (Hn n)].
  destruct (subcommand_should_be_declared_cases g subcommand_id None)
    as [[Hsc ->] | [Hsc Herr]];
    [| right; split; [tauto | auto with clic]].
  simpl.
  destruct (param_or_arg_declaration_cases g subcommand_id (Some n) false)
    as [(n' & [= <-] & _ & Hnd & ->) | [Hd Herr]]; simpl.
  - left. do 2 (split; [done |]). exists n. by repeat (split; [done |]).
  - right. split; [| auto with clic].
    intros (_ & _ & n' & [= <-] & _ & H). apply H. by apply Hd.
Qed.

Lemma clic_add_string_option_cases subcommand_id name value g :
  (string_option_accepted g subcommand_id name
   /\ clic_add_string_option subcommand_id name value g
      = Ret (set_string_options g
               (string_options g
                ++ [mk_string_option subcommand_id name value])))
  \/ (~ string_option_accepted g subcommand_id name
      /\ ConfigurationError
           (clic_add_string_option subcommand_id name value g)).
Proof.
  unfold clic_add_string_option, string_option_accepted.
  destruct (lifecycle_check_cases g) as [[Hst ->] | [Hst Herr]];
    [| right; split; [tauto | auto with clic]].
  simpl.
  destruct (subcommand_should_be_declared_cases g subcommand_id None)
    as [[Hsc ->] | [Hsc Herr]];
    [| right; split; [tauto | auto with clic]].
  simpl.
  destruct (param_or_arg_declaration_cases g subcommand_id name true)
    as [(n & -> & Hv & Hd & ->) | [Hd Herr]]; simpl.
  - left. split; [| reflexivity]. do 2 (split; [done |]). by exists n.
  - right. split; [| auto with clic].
    intros (_ & _ & n & Hs & Hv & H). by apply (Hd n Hs Hv).
Qed.

(** ** Invariants of the registry *)

Lemma registry_inv_zero : registry_inv clic_globals_zero.
Proof. split; simpl; try done; constructor. Qed.

Lemma registry_inv_init p v l d a g :
  registry_inv g -> registry_inv (clic_init p v l d a g).
Proof. intros [H1 H2 H3 H4]. by split. Qed.

Lemma registry_inv_set_flag_names g l :
  registry_inv g -> registry_inv (set_flag_names g l).
Proof. intros [H1 H2 H3 H4]. by split. Qed.

Lemma registry_inv_set_string_options g l :
  registry_inv g -> registry_inv (set_string_options g l).
Proof. intros [H1 H2 H3 H4]. by split. Qed.

(** The cleanup returns only when no flag is registered, and then
    leaves the registry as it is. *)
Lemma clic_cleanup_Ret g g' :
  clic_cleanup g = Ret g' -> g' = g /\ flag_names g = [].
Proof.
  unfold clic_cleanup, walk_flag_names.
  destruct (bool_decide_reflect (flag_names g = [])) as [He | Hne];
    simpl; [| discriminate].
  by intros [= <-].
Qed.

Lemma clic_cleanup_no_flag g : flag_names g = [] -> clic_cleanup g = Ret g.
Proof.
  intros He. unfold clic_cleanup, walk_flag_names.
  by rewrite (bool_decide_eq_true_2 _ He).
Qed.

(** The link of a flag name is a store through a dangling pointer
    exactly on a parsed registry that holds a flag name. *)
Lemma link_flag_name_cases g flag_name :
  (is_parsed g = true /\ flag_names g <> []
   /\ link_flag_name g flag_name = Undefined)
  \/ ((is_parsed g = true -> flag_names g = [])
      /\ link_flag_name g flag_name
         = Ret (set_flag_names g (flag_names g ++ [flag_name]))).
Proof.
  unfold link_flag_name.
  destruct (is_parsed g); simpl; [| right; by split].
  destruct (bool_decide_reflect (flag_names g = [])) as [He | Hne]; simpl.
  - right. by split.
  - left. by repeat split.
Qed.

Lemma clic_add_param_flag_Ret i c d v k g g' :
  clic_add_param_flag i c d v k g = Ret g' ->
  clic_add_param_or_arg i (Some (flag_name_buffer c)) d CLIC_FLAG false
    (mk_inconsistent 0 v k None None 0)
    (set_flag_names g (flag_names g ++ [flag_name_buffer c])) = Ret g'.
Proof.
  unfold clic_add_param_flag.
  destruct (link_flag_name_cases g (flag_name_buffer c))
    as [(_ & _ & ->) | [_ ->]]; [discriminate | done].
Qed.

Lemma registry_inv_set_is_parsed g :
  registry_inv g -> registry_inv (set_is_parsed g).
Proof. intros [H1 H2 H3 H4]. by split. Qed.

Lemma registry_inv_add_subcommand subcommand_id name description accept g g' :
  registry_inv g ->
  clic_add_subcommand subcommand_id name description accept g = Ret g' ->
  registry_inv g'.
Proof.
  intros [H1 H2 H3 H4] Hret.
  destruct (clic_add_subcommand_cases subcommand_id name description accept g)
    as [[(_ & Hnz & n & -> & Hv & _) Heq] | [_ [msg Herr]]];
    [| congruence].
  rewrite Heq in Hret. injection Hret as <-.
  split; simpl; try done.
  - apply Forall_app. split; [done |].
    constructor; [| constructor]. simpl. split; [done |]. by exists n.
  - eapply Forall_impl; [exact H3 |]. simpl.
    intros p [Hp [Hz | (scope & Hin & Hid)]]; (split; [done |]).
    + by left.
    + right. exists scope. split; [| done]. apply elem_of_app. by left.
Qed.

Lemma registry_inv_add_param_or_arg subcommand_id name description type
    is_required data g g' :
  registry_inv g ->
  clic_add_param_or_arg subcommand_id name description type is_required
    data g = Ret g' ->
  registry_inv g'.
Proof.
  intros [H1 H2 H3 H4] Hret.
  destruct (clic_add_param_or_arg_cases subcommand_id name description type
              is_required data g)
    as [(_ & Hsc & n & -> & Hv & Hfresh & Heq) | [_ [msg Herr]]];
    [| congruence].
  rewrite Heq in Hret. injection Hret as <-.
  split; simpl; try done.
  - apply Forall_app. split; [done |].
    constructor; [| constructor]. by split.
  - rewrite fmap_app. simpl. apply NoDup_app. split; [done |].
    split; [| apply NoDup_singleton].
    intros key Hkey Hnew. apply list_elem_of_singleton in Hnew. subst key.
    apply list_elem_of_fmap in Hkey as (p & Hp & Hin).
    apply Hfresh. exists p. unfold entry_key in Hp. simpl in Hp.
    injection Hp as Hid Hname. by repeat split.
Qed.

Lemma keep_mem_Ret m o g' m' :
  keep_mem m o = Ret (g', m') -> o = Ret g' /\ m' = m.
Proof. destruct o; simpl; try discriminate. by intros [= -> ->]. Qed.

Lemma clic_parse_Ret mode fuel argv p g m n g' m' :
  clic_parse mode fuel argv p g m = Ret (n, g', m') ->
  state_of g = Declaring /\ mode = NORMAL
  /\ g' = set_is_parsed g /\ flag_names g = [].
Proof.
  unfold clic_parse, clic_parse_detect.
  destruct (lifecycle_check_cases g) as [[Hst ->] | [_ [msg ->]]];
    [| discriminate].
  simpl. destruct mode; try discriminate.
  destruct (detect_subcommand _ _) as [active nb].
  destruct (store _ _ _); try discriminate. simpl.
  unfold clic_parse_eat. simpl.
  destruct (eat_parameters _ _ _ _ _); try discriminate. simpl.
  destruct (eat_named_arguments _ _ _ _); try discriminate. simpl.
  destruct (clic_cleanup (set_is_parsed g)) as [g1 | | | |] eqn:Hc;
    try discriminate.
  apply clic_cleanup_Ret in Hc as [-> He]. simpl.
  by intros [= _ <- _].
Qed.

Lemma registry_inv_run mode c g m g' m' :
  registry_inv g -> run mode c (g, m) = Ret (g', m') -> registry_inv g'.
Proof.
  intros Hinv. destruct c; simpl.
  - intros [= <- _]. by apply registry_inv_init.
  - intros [H _]%keep_mem_Ret. by eapply registry_inv_add_subcommand.
  - intros [H%clic_add_param_flag_Ret _]%keep_mem_Ret.
    eapply registry_inv_add_param_or_arg; [| exact H].
    by apply registry_inv_set_flag_names.
  - intros [H _]%keep_mem_Ret. by eapply registry_inv_add_param_or_arg.
  - intros [H _]%keep_mem_Ret. by eapply registry_inv_add_param_or_arg.
  - intros [H _]%keep_mem_Ret. by eapply registry_inv_add_param_or_arg.
  - intros [H _]%keep_mem_Ret. by eapply registry_inv_add_param_or_arg.
  - intros [H _]%keep_mem_Ret. by eapply registry_inv_add_param_or_arg.
  - intros [H _]%keep_mem_Ret.
    destruct (clic_add_string_option_cases subcommand_id param_or_arg_name
                value g) as [[_ Heq] | [_ [msg Herr]]]; [| congruence].
    rewrite Heq in H. injection H as <-.
    by apply registry_inv_set_string_options.
  - destruct (clic_parse mode fuel argv subcommand_id g m)
      as [[[n g1] m1] | | | |] eqn:Hp; try discriminate.
    simpl. intros [= <- _].
    apply clic_parse_Ret in Hp as (_ & _ & -> & _).
    by apply registry_inv_set_is_parsed.
Qed.

(** Every registry a program can build satisfies the invariants. *)
Lemma reachable_registry_inv mode g : reachable mode g -> registry_inv g.
Proof.
  induction 1 as [| c g m g' m' _ IH Hrun].
  - apply registry_inv_zero.
  - by eapply registry_inv_run.
Qed.

Lemma reachable_run_all mode cs g m g' m' :
  reachable mode g -> run_all mode cs (g, m) = Ret (g', m') ->
  reachable mode g'.
Proof.
  revert g m. induction cs as [| c cs IH]; cbn [run_all]; intros g m Hg.
  - by intros [= <- _].
  - destruct (run mode c (g, m)) as [[g1 m1] | | | |] eqn:Hrun;
      cbn [bind]; try discriminate.
    apply IH. by eapply reachable_run.
Qed.

(** ** The example programs are programs *)

Lemma demo_registry_built :
  run_all NORMAL demo_calls (clic_globals_zero, demo_memory)
  = Ret (demo_registry, demo_memory).
Proof. reflexivity. Qed.

Lemma tool_registry_built :
  run_all NORMAL tool_calls (clic_globals_zero, tool_memory)
  = Ret (tool_registry, tool_memory).
Proof. reflexivity. Qed.

Lemma plain_registry_built :
  run_all NORMAL plain_calls (clic_globals_zero, plain_memory)
  = Ret (plain_registry, plain_memory).
Proof. reflexivity. Qed.

Lemma plain_registry_reachable : reachable NORMAL plain_registry.
Proof.
  eapply reachable_run_all; [apply reachable_zero |].
  apply plain_registry_built.
Qed.

Lemma demo_registry_reachable : reachable NORMAL demo_registry.
Proof.
  eapply reachable_run_all; [apply reachable_zero |].
  apply demo_registry_built.
Qed.

Lemma tool_registry_reachable : reachable NORMAL tool_registry.
Proof.
  eapply reachable_run_all; [apply reachable_zero |].
  apply tool_registry_built.
Qed.

(** ** The life cycle *)

Lemma keep_mem_ConfigurationError m o :
  ConfigurationError o -> ConfigurationError (keep_mem m o).
Proof. intros [msg ->]. by exists msg. Qed.

Lemma clic_add_param_or_arg_needs_Declaring subcommand_id name description
    type is_required data g :
  state_of g <> Declaring ->
  ConfigurationError
    (clic_add_param_or_arg subcommand_id name description type is_required
       data g).
Proof.
  intros Hst.
  destruct (clic_add_param_or_arg_cases subcommand_id name description type
              is_required data g) as [(H & _) | [_ Herr]]; [done | done].
Qed.

Lemma clic_parse_needs_Declaring mode fuel argv p g m :
  state_of g <> Declaring ->
  ConfigurationError (clic_parse mode fuel argv p g m).
Proof.
  intros Hst. unfold clic_parse, clic_parse_detect.
  destruct (lifecycle_check_cases g) as [[H _] | [_ Herr]]; [done |].
  auto with clic.
Qed.

(** Reads a returning [clic_add_param_or_arg] back into the registry it
    returns. *)
Ltac param_or_arg_returned H :=
  lazymatch type of H with
  | clic_add_param_or_arg ?i ?n ?d ?t ?r ?data ?g0 = Ret _ =>
      let Heq := fresh "Heq" in
      let Herr := fresh "Herr" in
      destruct (clic_add_param_or_arg_cases i n d t r data g0)
        as [(_ & _ & ? & _ & _ & _ & Heq) | [_ [? Herr]]];
      [| congruence];
      rewrite Heq in H; injection H as <-
  end.

Ltac unfold_declaration :=
  unfold clic_add_param_flag, clic_add_param_bool, clic_add_param_int,
    clic_add_param_string, clic_add_arg_int, clic_add_arg_string in *.

(** A call other than [clic_init] made outside the Declaring state does
    not return. *)
Lemma run_not_Declaring mode c g m :
  is_init_call c = false -> state_of g <> Declaring ->
  ~ returns (run mode c (g, m)).
Proof.
  intros Hc Hst [[g' m'] Hret].
  destruct c as [| i n d a | i c d v k | | | | | | i n v | fuel argv p];
    try discriminate; cbn [run] in Hret;
    try (apply keep_mem_Ret in Hret as [Hret _]);
    try apply clic_add_param_flag_Ret in Hret;
    unfold clic_add_param_bool, clic_add_param_int, clic_add_param_string,
      clic_add_arg_int, clic_add_arg_string in *;
    try (lazymatch type of Hret with
         | clic_add_param_or_arg ?i ?n ?d ?t ?r ?data ?g0 = _ =>
             destruct (clic_add_param_or_arg_needs_Declaring i n d t r data
                         g0 Hst) as [msg Herr]; congruence
         end).
  - destruct (clic_add_subcommand_cases i n d a g)
      as [[(H & _) _] | [_ [msg Herr]]]; [done | congruence].
  - destruct (clic_add_string_option_cases i n v g)
      as [[(H & _) _] | [_ [msg Herr]]]; [done | congruence].
  - destruct (clic_parse_needs_Declaring mode fuel argv p g m Hst)
      as [msg Herr]. rewrite Herr in Hret. discriminate.
Qed.

(** A call other than [clic_init] made outside the Declaring state, on a
    registry that holds no freed flag name, fails with a configuration
    error. *)
Lemma run_needs_Declaring mode c g m :
  is_init_call c = false -> no_freed_flag_name g ->
  state_of g <> Declaring ->
  ConfigurationError (run mode c (g, m)).
Proof.
  intros Hc Hsafe Hst.
  destruct c as [| i n d a | i c d v k | | | | | | i n v |];
    try discriminate;
    cbn [run]; try (apply keep_mem_ConfigurationError).
  - destruct (clic_add_subcommand_cases i n d a g)
      as [[(H & _) _] | [_ Herr]]; [done | done].
  - unfold clic_add_param_flag.
    destruct (link_flag_name_cases g (flag_name_buffer c))
      as [(Hp & Hne & _) | [_ ->]]; [by destruct Hne; apply Hsafe |].
    by apply clic_add_param_or_arg_needs_Declaring.
  - by apply clic_add_param_or_arg_needs_Declaring.
  - by apply clic_add_param_or_arg_needs_Declaring.
  - by apply clic_add_param_or_arg_needs_Declaring.
  - by apply clic_add_param_or_arg_needs_Declaring.
  - by apply clic_add_param_or_arg_needs_Declaring.
  - destruct (clic_add_string_option_cases i n v g)
      as [[(H & _) _] | [_ Herr]]; [done | done].
  - apply ConfigurationError_bind. by apply clic_parse_needs_Declaring.
Qed.

(** A call other than [clic_init] that returns was made in the Declaring
    state; a declaration leaves the registry there, [clic_parse] moves it
    to Parsed. *)
Lemma run_Ret_state mode c g m g' m' :
  is_init_call c = false ->
  run mode c (g, m) = Ret (g', m') ->
  state_of g = Declaring
  /\ state_of g' = if is_parse c then Parsed else Declaring.
Proof.
  intros Hc Hrun.
  assert (state_of g = Declaring) as Hst.
  { destruct (lifecycle_check_cases g) as [[H _] | [H _]]; [done |].
    destruct (run_not_Declaring mode c g m Hc H). by eexists. }
  split; [done |].
  apply state_of_Declaring in Hst as [Hi Hp].
  destruct c as [| i n d a | i c d v k | | | | | | i n v | fuel argv p];
    try discriminate; cbn [run is_parse] in *;
    try (apply keep_mem_Ret in Hrun as [Hrun _]);
    try apply clic_add_param_flag_Ret in Hrun;
    unfold clic_add_param_bool, clic_add_param_int, clic_add_param_string,
      clic_add_arg_int, clic_add_arg_string in *;
    try (param_or_arg_returned Hrun; by apply state_of_Declaring).
  - destruct (clic_add_subcommand_cases i n d a g)
      as [[_ Heq] | [_ [msg Herr]]]; [| congruence].
    rewrite Heq in Hrun. injection Hrun as <-.
    by apply state_of_Declaring.
  - destruct (clic_add_string_option_cases i n v g)
      as [[_ Heq] | [_ [msg Herr]]]; [| congruence].
    rewrite Heq in Hrun. injection Hrun as <-. by apply state_of_Declaring.
  - destruct (clic_parse mode fuel argv p g m)
      as [[[k g1] m1] | | | |] eqn:Hparse; try discriminate.
    simpl in Hrun. injection Hrun as <- _.
    apply clic_parse_Ret in Hparse as (_ & _ & -> & _).
    unfold state_of. simpl. by rewrite Hi.
Qed.

(** Before the first call the registry is the zeroed storage, and every
    call that returns leaves it initialized. *)
Lemma reachable_zero_or_init mode g :
  reachable mode g -> g = clic_globals_zero \/ is_init g = true.
Proof.
  induction 1 as [| c g m g' m' _ _ Hrun]; [by left |]. right.
  destruct (is_init_call c) eqn:Hc.
  - destruct c; try discriminate. simpl in Hrun. by injection Hrun as <- _.
  - apply run_Ret_state in Hrun as [_ Hst]; [| done].
    unfold state_of in Hst. destruct (is_init g'); [done |].
    simpl in Hst. by destruct (is_parse c).
Qed.

(** [clic_parse] returns only from a registry without flag, so that a
    registry a program can build never holds a freed flag name. *)
Lemma reachable_no_freed_flag_name mode g :
  reachable mode g -> no_freed_flag_name g.
Proof.
  unfold no_freed_flag_name.
  induction 1 as [| c g m g' m' _ IH Hrun]; [discriminate |].
  destruct (is_init_call c) eqn:Hc.
  - destruct c; try discriminate. simpl in Hrun. by injection Hrun as <- _.
  - destruct (is_parse c) eqn:Hparse.
    + destruct c as [| | | | | | | | | fuel argv p]; try discriminate.
      cbn [run] in Hrun.
      destruct (clic_parse mode fuel argv p g m)
        as [[[k g1] m1] | | | |] eqn:Hp; try discriminate.
      simpl in Hrun. injection Hrun as <- _.
      by apply clic_parse_Ret in Hp as (_ & _ & -> & He).
    + apply run_Ret_state in Hrun as [_ Hst]; [| done].
      rewrite Hparse in Hst. apply state_of_Declaring in Hst as [_ Hnp].
      congruence.
Qed.

(** C5. The registry follows the life cycle Uninitialized, Declaring,
    Parsed. For every registry that a program can build: a declaration or
    a parse made while the registry is not in the Declaring state fails
    with a configuration error; one that returns was made in the
    Declaring state, a declaration leaving the registry there and a parse
    moving it to Parsed, after which every further declaration or parse
    fails with a configuration error; and [clic_init] moves a registry
    that no call has touched yet to the Declaring state. *)
Theorem lifecycle_guards_declarations_and_parse
    (mode : build_mode) (c : api_call) (g : clic_globals) (m : mem)
    (Hc : is_init_call c = false) (Hreach : reachable mode g) :
  (state_of g <> Declaring -> ConfigurationError (run mode c (g, m)))
  /\ (forall g' m', run mode c (g, m) = Ret (g', m') ->
        state_of g = Declaring
        /\ state_of g' = if is_parse c then Parsed else Declaring)
  /\ (forall g' m', is_parse c = true -> run mode c (g, m) = Ret (g', m') ->
        forall c2 m2, is_init_call c2 = false ->
          ConfigurationError (run mode c2 (g', m2)))
  /\ (forall program version license description accept,
        state_of g = Uninitialized ->
        state_of (clic_init program version license description accept g)
        = Declaring).
Proof.
  split;
    [apply run_needs_Declaring;
       [done | by eapply reachable_no_freed_flag_name] |].
  split; [intros g' m'; by apply run_Ret_state |].
  split.
  - intros g' m' Hparse Hrun c2 m2 Hc2.
    assert (reachable mode g') as Hreach' by (by eapply reachable_run).
    apply run_Ret_state in Hrun as [_ Hst]; [| done].
    rewrite Hparse in Hst.
    apply run_needs_Declaring;
      [done | by eapply reachable_no_freed_flag_name | by rewrite Hst].
  - intros program version license description accept Hst.
    destruct (reachable_zero_or_init mode g Hreach) as [-> | Hi];
      [reflexivity |].
    unfold state_of in Hst. rewrite Hi in Hst. simpl in Hst.
    by destruct (is_parsed g).
Qed.

(** The plain program: a declaration made before [clic_init] fails; its
    parse of an invocation without arguments returns, and a second parse
    or a further declaration then fails. *)
Lemma lifecycle_guards_declarations_and_parse_witness :
  ConfigurationError
    (run NORMAL (Call_add_param_flag 0 "v" None (Some verbose) 0)
       (clic_globals_zero, plain_memory))
  /\ exists g' m',
       run NORMAL (Call_parse 1 ["plain"] (Some invoked))
         (plain_registry, plain_memory) = Ret (g', m')
       /\ state_of g' = Parsed
       /\ ConfigurationError
            (run NORMAL (Call_parse 1 ["plain"] (Some invoked)) (g', m'))
       /\ ConfigurationError
            (run NORMAL (Call_add_param_flag 0 "v" None (Some verbose) 0)
               (g', m')).
Proof.
  split.
  - apply (lifecycle_guards_declarations_and_parse NORMAL
             (Call_add_param_flag 0 "v" None (Some verbose) 0)
             clic_globals_zero plain_memory eq_refl
             (reachable_zero NORMAL)).
    discriminate.
  - eexists _, _. split; [reflexivity |].
    pose proof (lifecycle_guards_declarations_and_parse NORMAL
                  (Call_parse 1 ["plain"] (Some invoked))
                  plain_registry plain_memory eq_refl
                  plain_registry_reachable)
      as (_ & Hst & Hnext & _).
    split; [apply (Hst _ _ eq_refl) |].
    split; apply (Hnext _ _ eq_refl eq_refl); reflexivity.
Defined.

(** ** Initialization *)

(** A second [clic_init] on the demonstration program returns, and the
    main scope then carries the metadata of the second call: no
    configuration error is raised. *)
Lemma second_init_returns :
  exists g2,
    run NORMAL (Call_init (Some "other") (Some "2.0") None None 0)
      (demo_registry, demo_memory) = Ret (g2, demo_memory)
    /\ is_init demo_registry = true
    /\ subcommand_name (main_scope demo_registry) = Some "demo"
    /\ subcommand_name (main_scope g2) = Some "other"
    /\ version (metadata g2) = Some "2.0"
    /\ ~ ConfigurationError
           (run NORMAL (Call_init (Some "other") (Some "2.0") None None 0)
              (demo_registry, demo_memory)).
Proof.
  eexists. split; [reflexivity |]. do 4 (split; [reflexivity |]).
  intros [msg Hmsg]. discriminate.
Qed.

(** C6, amended. [clic_init] checks nothing: a call made after a previous
    one (the registry being Declaring or Parsed) returns, overwrites the
    version, the license and the main scope (identifier 0) with its
    arguments, and leaves the life-cycle state and the four lists as they
    were. *)
Theorem init_again_returns_and_overwrites
    (mode : build_mode) (program version license description : cstr)
    (accept : Z) (g : clic_globals) (m : mem)
    (Hinit : state_of g <> Uninitialized) :
  exists g',
    run mode (Call_init program version license description accept) (g, m)
    = Ret (g', m)
    /\ state_of g' = state_of g
    /\ metadata g' = mk_metadata version license
    /\ main_scope g' = mk_scope 0 program description accept
    /\ flag_names g' = flag_names g
    /\ params_and_args g' = params_and_args g
    /\ string_options g' = string_options g
    /\ subcommand_scopes g' = subcommand_scopes g.
Proof.
  exists (clic_init program version license description accept g).
  split; [reflexivity |]. split; [| by repeat split].
  unfold state_of in *. simpl. by destruct (is_init g).
Qed.

Lemma init_again_returns_and_overwrites_witness :
  exists g',
    run NORMAL (Call_init (Some "other") (Some "2.0") None None 0)
      (demo_registry, demo_memory) = Ret (g', demo_memory)
    /\ state_of g' = state_of demo_registry
    /\ metadata g' = mk_metadata (Some "2.0") None
    /\ main_scope g' = mk_scope 0 (Some "other") None 0
    /\ flag_names g' = flag_names demo_registry
    /\ params_and_args g' = params_and_args demo_registry
    /\ string_options g' = string_options demo_registry
    /\ subcommand_scopes g' = subcommand_scopes demo_registry.
Proof.
  apply (init_again_returns_and_overwrites NORMAL (Some "other")
           (Some "2.0") None None 0 demo_registry demo_memory).
  vm_compute. discriminate.
Defined.

(** ** Subcommand registration *)

(** On the tool program, where "build" is the subcommand 1 and the main
    scope is named "tool": the identifier 1 is accepted again under
    another name, the name "build" is accepted again under another
    identifier, and the name of the main scope is accepted for a
    subcommand. *)
Lemma used_id_or_used_name_is_accepted :
  (exists scope, scope ∈ subcommand_scopes tool_registry
     /\ sc_subcommand_id scope = 1 /\ subcommand_name scope = Some "build")
  /\ subcommand_name (main_scope tool_registry) = Some "tool"
  /\ returns (clic_add_subcommand 1 (Some "compile") None 0 tool_registry)
  /\ returns (clic_add_subcommand 7 (Some "build") None 0 tool_registry)
  /\ returns (clic_add_subcommand 7 (Some "tool") None 0 tool_registry).
Proof.
  split.
  - eexists. split; [apply list_elem_of_here |]. by split.
  - split; [reflexivity |]. repeat split; by eexists.
Qed.

(** C4, amended. [clic_add_subcommand] registers the scope exactly when
    the registry is Declaring, the identifier is not 0, the name is valid
    and no registered subcommand carries both that identifier and that
    name; in every other case it fails with a configuration error. The
    name of the main scope is not consulted, and an identifier or a name
    that is in use on its own does not prevent the registration. *)
Theorem add_subcommand_rejects_registered_pairs
    (subcommand_id : Z) (name description : cstr) (accept : Z)
    (g : clic_globals) :
  (returns (clic_add_subcommand subcommand_id name description accept g)
   <-> state_of g = Declaring
       /\ subcommand_id <> 0
       /\ exists n, name = Some n /\ valid_name n
            /\ ~ exists scope, scope ∈ subcommand_scopes g
                   /\ sc_subcommand_id scope = subcommand_id
                   /\ subcommand_name scope = Some n)
  /\ (returns (clic_add_subcommand subcommand_id name description accept g)
      \/ ConfigurationError
           (clic_add_subcommand subcommand_id name description accept g))
  /\ (forall g',
        clic_add_subcommand subcommand_id name description accept g = Ret g'
        -> subcommand_scopes g'
           = (subcommand_scopes g
              ++ [mk_scope subcommand_id name description accept])%list).
Proof.
  destruct (clic_add_subcommand_cases subcommand_id name description accept g)
    as [[Hacc Heq] | [Hacc Herr]].
  - rewrite Heq. split; [| split].
    + split; [intros _; exact Hacc | intros _; by eexists].
    + left. by eexists.
    + by intros g' [= <-].
  - split; [| split].
    + split; [| by intros H].
      intros Hret. by apply ConfigurationError_not_returns in Herr.
    + by right.
    + intros g' Hret. destruct Herr as [msg Herr]. congruence.
Qed.

(** ** Restricted values *)

(** On the demonstration program, whose only entry is the flag [v]:
    a permitted value is registered for that flag, which is neither a
    string nor restricted. *)
Lemma string_option_accepted_for_a_flag :
  returns (clic_add_string_option 0 (Some "v") (Some "fast") demo_registry)
  /\ forall param_or_arg,
       param_or_arg ∈ params_and_args demo_registry ->
       pa_name param_or_arg = "v"
       /\ pa_type param_or_arg = CLIC_FLAG
       /\ restrict_to_declared_options param_or_arg = 0.
Proof.
  split; [by eexists |].
  intros p Hp. apply list_elem_of_singleton in Hp. by subst p.
Qed.

(** C7, amended. [clic_add_string_option] registers the value exactly when
    the registry is Declaring, the scope is the main one or a registered
    subcommand, the name is valid and an entry of that scope carries it,
    whatever the type of that entry and whether or not it is restricted;
    in every other case (the scope or the entry not being declared among
    them) it fails with a configuration error. *)
Theorem add_string_option_needs_declared_entry
    (subcommand_id : Z) (name value : cstr) (g : clic_globals) :
  (returns (clic_add_string_option subcommand_id name value g)
   <-> state_of g = Declaring
       /\ (subcommand_id = 0
           \/ exists scope, scope ∈ subcommand_scopes g
                /\ sc_subcommand_id scope = subcommand_id)
       /\ exists n, name = Some n /\ valid_name n
            /\ exists param_or_arg, param_or_arg ∈ params_and_args g
                 /\ pa_subcommand_id param_or_arg = subcommand_id
                 /\ pa_name param_or_arg = n)
  /\ (returns (clic_add_string_option subcommand_id name value g)
      \/ ConfigurationError
           (clic_add_string_option subcommand_id name value g))
  /\ (forall g',
        clic_add_string_option subcommand_id name value g = Ret g'
        -> string_options g'
           = (string_options g
              ++ [mk_string_option subcommand_id name value])%list).
Proof.
  destruct (clic_add_string_option_cases subcommand_id name value g)
    as [[Hacc Heq] | [Hacc Herr]].
  - rewrite Heq. split; [| split].
    + split; [intros _; exact Hacc | intros _; by eexists].
    + left. by eexists.
    + by intros g' [= <-].
  - split; [| split].
    + split; [| by intros H].
      intros Hret. by apply ConfigurationError_not_returns in Herr.
    + by right.
    + intros g' Hret. destruct Herr as [msg Herr]. congruence.
Qed.

(** ** Subcommand detection *)

Lemma find_first {A} (f : A -> bool) (l : list A) :
  match find f l with
  | Some x => exists before after,
      l = (before ++ x :: after)%list
      /\ Forall (fun y => f y = false) before /\ f x = true
  | None => Forall (fun y => f y = false) l
  end.
Proof.
  induction l as [| a l IH]; simpl; [constructor |].
  destruct (f a) eqn:Hfa.
  - exists [], l. by repeat split.
  - destruct (find f l) as [x|].
    + destruct IH as (before & after & -> & Hb & Hx).
      exists (a :: before), after. repeat split; [| done].
      by constructor.
    + by constructor.
Qed.

Lemma argv_at_in_bounds argv i :
  0 <= i <= argc_of argv -> argv_at argv i = Ret (argv !! Z.to_nat i).
Proof.
  intros [H0 H1]. unfold argv_at.
  destruct (Z.ltb_spec i 0); [lia |].
  destruct (Z.ltb_spec (argc_of argv) i); [lia | done].
Qed.

(** A read that yields a string was made below [argc], so that the next
    element is still inside the array. *)
Lemma argv_at_Some argv i s :
  argv_at argv i = Ret (Some s) ->
  0 <= i < argc_of argv /\ argv !! Z.to_nat i = Some s.
Proof.
  unfold argv_at.
  destruct (Z.ltb_spec i 0); [discriminate |].
  destruct (Z.ltb_spec (argc_of argv) i); simpl; [discriminate |].
  intros [= Hs]. split; [| done].
  apply lookup_lt_Some in Hs. unfold argc_of. lia.
Qed.

Lemma argv_at_1 argv :
  (1 <? argc_of argv) = true -> argv_at argv 1 = Ret (argv !! 1%nat).
Proof.
  intros H%Z.ltb_lt. rewrite argv_at_in_bounds by lia. done.
Qed.

Lemma argc_gt_1 argv : (1 <? argc_of argv) = true <-> is_Some (argv !! 1%nat).
Proof.
  unfold argc_of. rewrite Z.ltb_lt, lookup_lt_is_Some. lia.
Qed.

(** What the detection step computes. *)
Lemma detect_subcommand_cases g argv :
  (exists scope before after,
     detect_subcommand g argv = (scope, 1)
     /\ names_subcommand g argv scope
     /\ subcommand_scopes g = (before ++ scope :: after)%list
     /\ Forall (fun other => ~ names_subcommand g argv other) before)
  \/ (detect_subcommand g argv = (main_scope g, 0)
      /\ ~ exists scope, names_subcommand g argv scope).
Proof.
  unfold detect_subcommand.
  destruct (1 <? argc_of argv) eqn:Hargc.
  - rewrite argv_at_1 by done.
    apply argc_gt_1 in Hargc as [tok Htok]. rewrite Htok.
    pose proof (find_first (scope_named tok) (subcommand_scopes g)) as Hfind.
    destruct (find (scope_named tok) (subcommand_scopes g)) as [scope|].
    + left. destruct Hfind as (before & after & Heq & Hb & Hx).
      exists scope, before, after. split; [done |].
      apply scope_named_spec in Hx. split; [| split; [done |]].
      * split; [| by exists tok].
        rewrite Heq. apply elem_of_app. right. apply list_elem_of_here.
      * eapply Forall_impl; [exact Hb |]. simpl.
        intros other Hf (_ & tok' & Htok' & Hname).
        rewrite Htok in Htok'. injection Htok' as <-.
        apply scope_named_spec in Hname. congruence.
    + right. split; [done |]. intros (scope & Hin & tok' & Htok' & Hname).
      rewrite Htok in Htok'. injection Htok' as <-.
      rewrite Forall_forall in Hfind. specialize (Hfind scope Hin).
      apply scope_named_spec in Hname. congruence.
  - right. split; [done |]. intros (scope & _ & tok & Htok & _).
    assert (is_Some (argv !! 1%nat)) as H by (by exists tok).
    apply argc_gt_1 in H. congruence.
Qed.

Lemma clic_parse_detect_NORMAL argv p g m :
  state_of g = Declaring ->
  clic_parse_detect NORMAL argv p g m
  = let! m' := store p (sc_subcommand_id (detect_subcommand g argv).1) m in
    Ret (mk_parse_state (set_is_parsed g) (detect_subcommand g argv).1
           (detect_subcommand g argv).2 m').
Proof.
  intros Hst. unfold clic_parse_detect.
  destruct (lifecycle_check_cases g) as [[_ ->] | [H _]]; [| done].
  simpl.
  change (detect_subcommand (set_is_parsed g) argv)
    with (detect_subcommand g argv).
  by destruct (detect_subcommand g argv).
Qed.

(** C9. Step 1 of [clic_parse], for every registry built through the
    interface and every token sequence: when the token after the program
    name exists and is the name of a registered subcommand, the first
    scope registered under that name becomes the active scope, 1 token is
    counted, and the identifier of that scope is written through
    [subcommand_id]; otherwise the main scope is active, 0 token is
    counted, and 0 is written. *)
Theorem subcommand_detection
    (g : clic_globals) (argv : list string) (l : loc) (m : mem)
    (Hreach : reachable NORMAL g) (Hst : state_of g = Declaring) :
  exists active nb,
    clic_parse_detect NORMAL argv (Some l) g m
    = Ret (mk_parse_state (set_is_parsed g) active nb
             (<[l := Vint (sc_subcommand_id active)]> m))
    /\ ((exists scope, names_subcommand g argv scope) ->
          names_subcommand g argv active /\ nb = 1
          /\ exists before after,
               subcommand_scopes g = (before ++ active :: after)%list
               /\ Forall (fun other => ~ names_subcommand g argv other)
                         before)
    /\ ((~ exists scope, names_subcommand g argv scope) ->
          active = main_scope g /\ nb = 0 /\ sc_subcommand_id active = 0).
Proof.
  rewrite clic_parse_detect_NORMAL by done. simpl.
  destruct (detect_subcommand_cases g argv)
    as [(scope & before & after & -> & Hn & Hl & Hb) | [-> Hnone]]; simpl.
  - exists scope, 1. split; [done |]. split.
    + intros _. split; [done |]. split; [done |]. by exists before, after.
    + intros Habs. exfalso. apply Habs. by exists scope.
  - exists (main_scope g), 0. split; [done |]. split; [done |].
    intros _. split; [done |]. split; [done |].
    apply (inv_main_scope g). by eapply reachable_registry_inv.
Qed.

Lemma subcommand_detection_witness :
  exists active nb,
    clic_parse_detect NORMAL ["tool"; "test"; "3"] (Some invoked)
      tool_registry tool_memory
    = Ret (mk_parse_state (set_is_parsed tool_registry) active nb
             (<[invoked := Vint (sc_subcommand_id active)]> tool_memory))
    /\ sc_subcommand_id active = 2 /\ nb = 1.
Proof.
  destruct (subcommand_detection tool_registry ["tool"; "test"; "3"]
              invoked tool_memory tool_registry_reachable eq_refl)
    as (active & nb & Heq & Hyes & _).
  exists active, nb. split; [exact Heq |].
  vm_compute in Heq. injection Heq as <- <-. by split.
Defined.

(** ** The write through [subcommand_id] *)

Lemma clic_parse_eat_mem fuel argv st n g' m' :
  clic_parse_eat fuel argv st = Ret (n, g', m') -> m' = ps_mem st.
Proof.
  unfold clic_parse_eat.
  destruct (eat_parameters _ _ _ _ _); simpl; try discriminate.
  destruct (eat_named_arguments _ _ _ _); simpl; try discriminate.
  destruct (clic_cleanup _); simpl; try discriminate.
  by intros [= _ _ <-].
Qed.

(** [clic_parse] writes to no variable but the one [subcommand_id]
    designates. *)
Lemma clic_parse_mem_other mode fuel argv l g m n g' m' l' :
  clic_parse mode fuel argv (Some l) g m = Ret (n, g', m') ->
  l' <> l -> m' !! l' = m !! l'.
Proof.
  intros Hret Hne. pose proof Hret as (Hst & -> & _)%clic_parse_Ret.
  unfold clic_parse in Hret.
  rewrite clic_parse_detect_NORMAL in Hret by done. simpl in Hret.
  apply clic_parse_eat_mem in Hret as ->. simpl.
  by apply lookup_insert_ne.
Qed.

(** C10. In a normal build, a call of [clic_parse] that passes the
    life-cycle check writes the identifier of the active scope through
    [subcommand_id] before it enters the parameter loop, whatever the
    registered subcommands and the tokens: through a null pointer the
    call is undefined whatever the loop would do, and through any other
    pointer the cell holds the identifier when the loop is entered and
    still holds it when the call returns. *)
Theorem parse_writes_subcommand_id_first
    (g : clic_globals) (argv : list string) (m : mem)
    (Hst : state_of g = Declaring) :
  (forall fuel, clic_parse NORMAL fuel argv None g m = Undefined)
  /\ (forall l, exists st,
        clic_parse_detect NORMAL argv (Some l) g m = Ret st
        /\ (ps_active_scope st, ps_nb_processed_arguments st)
           = detect_subcommand g argv
        /\ ps_mem st = <[l := Vint (sc_subcommand_id (ps_active_scope st))]> m)
  /\ (forall fuel l n g' m',
        clic_parse NORMAL fuel argv (Some l) g m = Ret (n, g', m') ->
        m' !! l
        = Some (Vint (sc_subcommand_id (detect_subcommand g argv).1))).
Proof.
  split; [| split].
  - intros fuel. unfold clic_parse.
    by rewrite clic_parse_detect_NORMAL.
  - intros l. rewrite clic_parse_detect_NORMAL by done. simpl.
    eexists. split; [reflexivity |]. simpl.
    by destruct (detect_subcommand g argv).
  - intros fuel l n g' m'. unfold clic_parse.
    rewrite clic_parse_detect_NORMAL by done. simpl.
    intros ->%clic_parse_eat_mem. simpl. apply lookup_insert_eq.
Qed.

(** The plain program invoked with its subcommand: through a null
    pointer the call is undefined; through [invoked] it returns, and
    [invoked] then holds 1, the identifier of the subcommand. *)
Lemma parse_writes_subcommand_id_first_witness :
  clic_parse NORMAL 1 ["plain"; "build"] None plain_registry plain_memory
  = Undefined
  /\ exists n g' m',
       clic_parse NORMAL 1 ["plain"; "build"] (Some invoked) plain_registry
         plain_memory = Ret (n, g', m')
       /\ m' !! invoked = Some (Vint 1).
Proof.
  destruct (parse_writes_subcommand_id_first plain_registry
              ["plain"; "build"] plain_memory eq_refl)
    as (Hnull & _ & Hret).
  split; [apply Hnull |].
  eexists _, _, _. split; [reflexivity |].
  apply (Hret 1%nat invoked _ _ _ eq_refl).
Defined.

(** ** The parameter loop and the dispatch of a matched entry *)

(** A turn of the loop that goes on leaves the count where it was. *)
Lemma eat_parameter_Continue g active argv nb nb' :
  eat_parameter g active argv nb = Ret (Continue nb') -> nb' = nb.
Proof.
  unfold eat_parameter, clic_parse_param_or_arg, clic_print_help, bind.
  repeat (match goal with
          | |- context [match ?x with _ => _ end] => destruct x
          end; try discriminate).
  - intros [= <-]. lia.
  - by intros [= <-].
Qed.

(** Hence a loop that goes on once goes on for ever. *)
Lemma eat_parameters_stuck g active argv nb nb' :
  eat_parameter g active argv nb = Ret (Continue nb') ->
  forall fuel, eat_parameters fuel g active argv nb = OutOfFuel.
Proof.
  intros Hstep fuel.
  pose proof (eat_parameter_Continue _ _ _ _ _ Hstep) as ->.
  induction fuel as [| fuel IH]; simpl; [done |].
  by rewrite Hstep.
Qed.

Lemma clic_parse_stuck argv l g m :
  state_of g = Declaring ->
  (exists nb',
     eat_parameter (set_is_parsed g) (detect_subcommand g argv).1 argv
       (detect_subcommand g argv).2 = Ret (Continue nb')) ->
  forall fuel, clic_parse NORMAL fuel argv (Some l) g m = OutOfFuel.
Proof.
  intros Hst [nb' Hstep] fuel. unfold clic_parse.
  rewrite clic_parse_detect_NORMAL by done. simpl.
  unfold clic_parse_eat. simpl.
  by rewrite (eat_parameters_stuck _ _ _ _ _ Hstep).
Qed.

(** C1, on the demonstration program invoked as [demo -v]: the turn of
    the parameter loop that meets the declared flag goes on with the
    count unchanged, and [clic_parse] returns within no amount of fuel. *)
Theorem parse_never_returns_on_a_declared_flag :
  eat_parameter (set_is_parsed demo_registry) (main_scope demo_registry)
    ["demo"; "-v"] 0 = Ret (Continue 0)
  /\ forall fuel,
       clic_parse NORMAL fuel ["demo"; "-v"] (Some invoked) demo_registry
         demo_memory = OutOfFuel.
Proof.
  split; [reflexivity |].
  apply clic_parse_stuck; [reflexivity |]. by exists 0.
Qed.

(** C2, on the demonstration program, whose flag [v] has mask 0 and
    targets [verbose], initially 0, invoked as [demo -v]: the token is
    matched to the flag, the dispatch reports 0 token used, [verbose]
    still holds 0 when the loop is entered, the turn of the loop changes
    nothing, and [clic_parse] never returns. *)
Theorem flag_is_matched_but_not_applied :
  (exists flag,
     parameter_name "-v" = Some "v"
     /\ find (param_matches (main_scope demo_registry) "v")
             (params_and_args demo_registry) = Some flag
     /\ pa_type flag = CLIC_FLAG /\ mask flag = 0
     /\ scalar_variable flag = Some verbose
     /\ clic_parse_param_or_arg flag (Some "-v") None = 0)
  /\ (exists st,
        clic_parse_detect NORMAL ["demo"; "-v"] (Some invoked) demo_registry
          demo_memory = Ret st
        /\ ps_mem st !! verbose = Some (Vint 0)
        /\ eat_parameter (ps_globals st) (ps_active_scope st) ["demo"; "-v"]
             (ps_nb_processed_arguments st)
           = Ret (Continue (ps_nb_processed_arguments st)))
  /\ forall fuel,
       clic_parse NORMAL fuel ["demo"; "-v"] (Some invoked) demo_registry
         demo_memory = OutOfFuel.
Proof.
  split; [| split].
  - eexists. split; [reflexivity |]. split; [reflexivity |]. by repeat split.
  - eexists. split; [reflexivity |]. by split.
  - apply clic_parse_stuck; [reflexivity |]. by exists 0.
Qed.

(** C3, on the tool program, whose string parameter [mode] of the main
    scope is restricted to "fast" and "slow" and targets [mode_variable]:
    invoked with [--mode bogus], or with [--mode] and no value, the token
    is matched to the parameter, the dispatch reports 0 token used, the
    turn of the loop raises no error and changes nothing, [mode_variable]
    is not written, and [clic_parse] never returns. *)
Theorem restricted_string_is_matched_but_not_checked :
  (exists param,
     parameter_name "--mode" = Some "mode"
     /\ find (param_matches (main_scope tool_registry) "mode")
             (params_and_args tool_registry) = Some param
     /\ pa_type param = CLIC_STRING
     /\ restrict_to_declared_options param = 1
     /\ string_variable param = Some mode_variable
     /\ so_value <$> string_options tool_registry
        = [Some "fast"; Some "slow"]
     /\ clic_parse_param_or_arg param (Some "--mode") (Some "bogus") = 0
     /\ clic_parse_param_or_arg param (Some "--mode") None = 0)
  /\ (exists st,
        clic_parse_detect NORMAL ["tool"; "--mode"; "bogus"] (Some invoked)
          tool_registry tool_memory = Ret st
        /\ ps_mem st !! mode_variable = Some (Vstr None)
        /\ eat_parameter (ps_globals st) (ps_active_scope st)
             ["tool"; "--mode"; "bogus"] (ps_nb_processed_arguments st)
           = Ret (Continue (ps_nb_processed_arguments st)))
  /\ (forall fuel,
        clic_parse NORMAL fuel ["tool"; "--mode"; "bogus"] (Some invoked)
          tool_registry tool_memory = OutOfFuel)
  /\ (exists st,
        clic_parse_detect NORMAL ["tool"; "--mode"] (Some invoked)
          tool_registry tool_memory = Ret st
        /\ ps_mem st !! mode_variable = Some (Vstr None)
        /\ eat_parameter (ps_globals st) (ps_active_scope st)
             ["tool"; "--mode"] (ps_nb_processed_arguments st)
           = Ret (Continue (ps_nb_processed_arguments st)))
  /\ (forall fuel,
        clic_parse NORMAL fuel ["tool"; "--mode"] (Some invoked)
          tool_registry tool_memory = OutOfFuel).
Proof.
  split.
  { eexists. split; [reflexivity |]. split; [reflexivity |].
    by repeat split. }
  split; [eexists; split; [reflexivity |]; by split |].
  split; [apply clic_parse_stuck; [reflexivity |]; by exists 0 |].
  split; [eexists; split; [reflexivity |]; by split |].
  apply clic_parse_stuck; [reflexivity |]. by exists 0.
Qed.

(** * Further properties of the registry *)

(** ** Declarations as steps *)

Lemma valid_flag_name c :
  valid_name (flag_name_buffer c)
  <-> alphabetic c /\ flag_name_buffer c = String c EmptyString.
Proof.
  unfold flag_name_buffer. destruct (Ascii.eqb_spec c zero) as [-> | Hnz].
  - split; [by intros [H _] |]. intros [[H | H] _]; vm_compute in H; lia.
  - split.
    + intros (_ & (c' & r & [= <- <-] & Hc) & _). by split.
    + intros [Hc _]. split; [done |]. split; [by exists c, EmptyString |].
      constructor; [by left | constructor].
Qed.

Lemma clic_add_param_or_arg_declares i name d t r data g g' :
  clic_add_param_or_arg i name d t r data g = Ret g' ->
  exists n, name = Some n /\ valid_name n /\ scope_declared g i
    /\ ~ entry_declared g i n
    /\ g' = set_params_and_args g
              (params_and_args g ++ [new_entry i n d t r data]).
Proof.
  intros Hret.
  destruct (clic_add_param_or_arg_cases i name d t r data g)
    as [(_ & Hsc & n & -> & Hv & Hfresh & Heq) | [_ [msg Herr]]];
    [| congruence].
  exists n. rewrite Heq in Hret. injection Hret as <-.
  by do 4 (split; [done |]).
Qed.

Lemma declares_plain_entry g e :
  is_flag e = false ->
  valid_name (pa_name e) -> scope_declared g (pa_subcommand_id e) ->
  ~ entry_declared g (pa_subcommand_id e) (pa_name e) -> entry_shape e ->
  declared_by g (set_params_and_args g (params_and_args g ++ [e])).
Proof.
  intros Hflag Hv Hsc Hfresh Hshape.
  pose proof (declares_entry g e Hv Hsc Hfresh Hshape) as H.
  rewrite Hflag, app_nil_r in H. exact H.
Qed.

(** A declaration that returns is one step of [declared_by], made in the
    Declaring state, and leaves the caller's variables alone. *)
Lemma run_declares mode c g m g' m' :
  is_init_call c = false -> is_parse c = false ->
  run mode c (g, m) = Ret (g', m') ->
  state_of g = Declaring /\ m' = m /\ declared_by g g'.
Proof.
  intros Hinit Hparse Hrun.
  pose proof (run_Ret_state mode c g m g' m' Hinit Hrun) as [Hst _].
  split; [done |].
  destruct c as [| i n d a | i c d v k | i n d dv v k | i n d dv v
                 | i n d dv v r | i n d v | i n d v r | i n v |];
    try discriminate; cbn [run] in Hrun;
    apply keep_mem_Ret in Hrun as [Hrun ->]; (split; [done |]).
  - destruct (clic_add_subcommand_cases i n d a g)
      as [[(_ & Hnz & n0 & -> & Hv & Hfresh) Heq] | [_ [msg Herr]]];
      [| congruence].
    rewrite Heq in Hrun. injection Hrun as <-.
    by eapply declares_subcommand.
  - apply clic_add_param_flag_Ret in Hrun.
    apply clic_add_param_or_arg_declares in Hrun
      as (n & [= <-] & Hv & Hsc & Hfresh & ->).
    pose proof Hv as [Hc Hname]%valid_flag_name. rewrite Hname in *.
    apply (declares_entry g
             (mk_param_or_arg i (String c EmptyString) d CLIC_FLAG false
                0 v k None None 0)); simpl; try done.
    do 5 (split; [done |]). by exists c.
  - apply clic_add_param_or_arg_declares in Hrun
      as (n0 & -> & Hv & Hsc & Hfresh & ->).
    by apply declares_plain_entry.
  - apply clic_add_param_or_arg_declares in Hrun
      as (n0 & -> & Hv & Hsc & Hfresh & ->).
    by apply declares_plain_entry.
  - apply clic_add_param_or_arg_declares in Hrun
      as (n0 & -> & Hv & Hsc & Hfresh & ->).
    by apply declares_plain_entry.
  - apply clic_add_param_or_arg_declares in Hrun
      as (n0 & -> & Hv & Hsc & Hfresh & ->).
    by apply declares_plain_entry.
  - apply clic_add_param_or_arg_declares in Hrun
      as (n0 & -> & Hv & Hsc & Hfresh & ->).
    by apply declares_plain_entry.
  - destruct (clic_add_string_option_cases i n v g)
      as [[(_ & Hsc & n0 & -> & Hv & Hd) Heq] | [_ [msg Herr]]];
      [| congruence].
    rewrite Heq in Hrun. injection Hrun as <-.
    by eapply declares_string_option.
Qed.

(** ** Declaring parameters and arguments *)

(** X1. [clic_add_param_or_arg], through which the eight declaration
    functions register an entry, returns exactly when the registry is
    Declaring, the scope is the main one or a registered subcommand, the
    name is valid and no entry of that scope carries it yet; otherwise it
    fails with a configuration error. When it returns, the entry is the
    last of the list and nothing else has changed. *)
Theorem entry_declaration_needs_a_fresh_name
    (i : Z) (name d : cstr) (t : clic_type) (r : bool)
    (data : inconsistent_data) (g : clic_globals) :
  (returns (clic_add_param_or_arg i name d t r data g)
   <-> state_of g = Declaring
       /\ (i = 0 \/ exists scope, scope ∈ subcommand_scopes g
                      /\ sc_subcommand_id scope = i)
       /\ exists n, name = Some n /\ valid_name n
            /\ ~ exists e, e ∈ params_and_args g
                   /\ pa_subcommand_id e = i /\ pa_name e = n)
  /\ (returns (clic_add_param_or_arg i name d t r data g)
      \/ ConfigurationError (clic_add_param_or_arg i name d t r data g))
  /\ (forall g', clic_add_param_or_arg i name d t r data g = Ret g' ->
        exists n, name = Some n
          /\ g' = set_params_and_args g
                    (params_and_args g ++ [new_entry i n d t r data])).
Proof.
  destruct (clic_add_param_or_arg_cases i name d t r data g)
    as [(Hst & Hsc & n & -> & Hv & Hfresh & Heq) | [Hacc Herr]].
  - rewrite Heq. split; [| split].
    + split; [| intros _; by eexists].
      intros _. do 2 (split; [done |]). by exists n.
    + left. by eexists.
    + intros g' [= <-]. by exists n.
  - split; [| split].
    + split; [| by intros H].
      intros Hret. by apply ConfigurationError_not_returns in Herr.
    + by right.
    + intros g' Hret. destruct Herr as [msg Herr]. congruence.
Qed.

(** X2. [clic_add_param_flag] returns exactly when the registry is
    Declaring, the scope is declared, the character is a letter and the
    scope has no entry named by that letter yet. It is undefined exactly
    on a parsed registry that holds a flag name, where it stores through
    the freed last node of [flag_names] before any check; in every other
    case it fails with a configuration error. When it returns, the
    one-letter name is the last of [flag_names] and the entry, a flag
    that is not required, is the last of [params_and_args]. *)
Theorem flag_declaration_needs_a_letter
    (i : Z) (c : ascii) (d : cstr) (v : option loc) (k : Z)
    (g : clic_globals) :
  (returns (clic_add_param_flag i c d v k g)
   <-> state_of g = Declaring
       /\ (i = 0 \/ exists scope, scope ∈ subcommand_scopes g
                      /\ sc_subcommand_id scope = i)
       /\ alphabetic c
       /\ ~ exists e, e ∈ params_and_args g
              /\ pa_subcommand_id e = i /\ pa_name e = String c EmptyString)
  /\ (clic_add_param_flag i c d v k g = Undefined
      <-> is_parsed g = true /\ flag_names g <> [])
  /\ (returns (clic_add_param_flag i c d v k g)
      \/ ConfigurationError (clic_add_param_flag i c d v k g)
      \/ clic_add_param_flag i c d v k g = Undefined)
  /\ (forall g', clic_add_param_flag i c d v k g = Ret g' ->
        flag_names g' = (flag_names g ++ [String c EmptyString])%list
        /\ params_and_args g'
           = (params_and_args g
              ++ [mk_param_or_arg i (String c EmptyString) d CLIC_FLAG
                    false 0 v k None None 0])%list
        /\ subcommand_scopes g' = subcommand_scopes g
        /\ string_options g' = string_options g).
Proof.
  unfold clic_add_param_flag.
  destruct (link_flag_name_cases g (flag_name_buffer c))
    as [(Hp & Hne & ->) | [Hsafe ->]]; cbn [bind].
  { split; [| split; [| split]].
    - split; [intros [a Ha]; discriminate |].
      intros (Hst & _). apply state_of_Declaring in Hst as [_ Hnp].
      congruence.
    - by split.
    - right. by right.
    - intros g' Hret. discriminate. }
  match goal with
  | |- context [clic_add_param_or_arg ?i ?n ?d ?t ?r ?data ?g0] =>
      destruct (clic_add_param_or_arg_cases i n d t r data g0)
        as [(Hst & Hsc & n0 & [= <-] & Hv & Hfresh & Heq) | [Hacc Herr]]
  end.
  - pose proof Hv as [Hc Hname]%valid_flag_name.
    rewrite Heq. split; [| split; [| split]].
    + split; [| intros _; by eexists].
      intros _. do 3 (split; [done |]). by rewrite <- Hname.
    + split; [discriminate |]. intros [Hp Hne]. by destruct Hne; apply Hsafe.
    + left. by eexists.
    + intros g' [= <-]. simpl. unfold new_entry. simpl.
      by rewrite Hname.
  - split; [| split; [| split]].
    + split; [intros Hret; by apply ConfigurationError_not_returns in Herr |].
      intros (Hst & Hsc & Hc & Hfresh). exfalso. apply Hacc.
      do 2 (split; [done |]). exists (String c EmptyString).
      assert (flag_name_buffer c = String c EmptyString) as Hname.
      { unfold flag_name_buffer.
        destruct (Ascii.eqb_spec c zero) as [-> | _]; [| done].
        destruct Hc as [H | H]; vm_compute in H; lia. }
      split; [by rewrite Hname |]. split; [| done].
      rewrite <- Hname. apply valid_flag_name. by split.
    + split; [| intros [Hp Hne]; by destruct Hne; apply Hsafe].
      intros Hu. destruct Herr as [msg Herr]. congruence.
    + right. by left.
    + intros g' Hret. destruct Herr as [msg Herr]. congruence.
Qed.

(** ** The registry only grows *)

Lemma declared_by_appends g g' :
  declared_by g g' ->
  state_of g' = state_of g /\ is_parsed g' = is_parsed g
  /\ metadata g' = metadata g /\ main_scope g' = main_scope g
  /\ exists scopes entries options names,
       subcommand_scopes g' = (subcommand_scopes g ++ scopes)%list
       /\ params_and_args g' = (params_and_args g ++ entries)%list
       /\ string_options g' = (string_options g ++ options)%list
       /\ flag_names g' = (flag_names g ++ names)%list.
Proof.
  destruct 1; (do 4 (split; [reflexivity |])); simpl.
  - exists [mk_scope i name d a], [], [], []. by rewrite !app_nil_r.
  - exists [], [e], [], (if is_flag e then [pa_name e] else []).
    by rewrite !app_nil_r.
  - exists [], [], [mk_string_option i name v], []. by rewrite !app_nil_r.
Qed.

Lemma run_appends mode c g m g' m' :
  is_parse c = false -> run mode c (g, m) = Ret (g', m') ->
  m' = m /\ is_parsed g' = is_parsed g
  /\ exists scopes entries options names,
       subcommand_scopes g' = (subcommand_scopes g ++ scopes)%list
       /\ params_and_args g' = (params_and_args g ++ entries)%list
       /\ string_options g' = (string_options g ++ options)%list
       /\ flag_names g' = (flag_names g ++ names)%list.
Proof.
  intros Hparse Hrun. destruct (is_init_call c) eqn:Hinit.
  - destruct c; try discriminate. simpl in Hrun. injection Hrun as <- <-.
    do 2 (split; [done |]). exists [], [], [], []. simpl.
    by rewrite !app_nil_r.
  - apply run_declares in Hrun as (_ & -> & Hd); [| done | done].
    split; [done |].
    by apply declared_by_appends in Hd as (_ & Hp & _ & _ & H).
Qed.

Lemma run_all_appends mode cs g m g' m' :
  Forall (fun c => is_parse c = false) cs ->
  run_all mode cs (g, m) = Ret (g', m') ->
  m' = m /\ is_parsed g' = is_parsed g
  /\ exists scopes entries options names,
       subcommand_scopes g' = (subcommand_scopes g ++ scopes)%list
       /\ params_and_args g' = (params_and_args g ++ entries)%list
       /\ string_options g' = (string_options g ++ options)%list
       /\ flag_names g' = (flag_names g ++ names)%list.
Proof.
  intros Hcs. revert g m.
  induction Hcs as [| c cs Hc _ IH]; cbn [run_all]; intros g m.
  - intros [= <- <-]. do 2 (split; [done |]). exists [], [], [], [].
    by rewrite !app_nil_r.
  - destruct (run mode c (g, m)) as [[g1 m1] | | | |] eqn:Hrun;
      cbn [bind]; try discriminate.
    intros Hrest.
    apply run_appends in Hrun
      as (-> & Hp1 & s1 & e1 & o1 & n1 & H1 & H2 & H3 & H4); [| done].
    apply IH in Hrest
      as (-> & Hp2 & s2 & e2 & o2 & n2 & H5 & H6 & H7 & H8).
    split; [done |]. split; [congruence |].
    exists (s1 ++ s2)%list, (e1 ++ e2)%list, (o1 ++ o2)%list,
      (n1 ++ n2)%list.
    rewrite H5, H6, H7, H8, H1, H2, H3, H4. by rewrite !app_assoc.
Qed.

(** X3. As long as [clic_parse] is not called, whatever the program
    calls, [clic_init] included, the registry only grows: the scopes, the
    entries, the permitted values and the flag names registered before
    are still there, in the same order and ahead of the new ones, and
    the caller's variables are untouched. *)
Theorem declarations_only_append
    (mode : build_mode) (cs : list api_call) (g g' : clic_globals)
    (m m' : mem)
    (Hcs : Forall (fun c => is_parse c = false) cs)
    (Hrun : run_all mode cs (g, m) = Ret (g', m')) :
  m' = m
  /\ exists scopes entries options names,
       subcommand_scopes g' = (subcommand_scopes g ++ scopes)%list
       /\ params_and_args g' = (params_and_args g ++ entries)%list
       /\ string_options g' = (string_options g ++ options)%list
       /\ flag_names g' = (flag_names g ++ names)%list.
Proof.
  destruct (run_all_appends mode cs g m g' m' Hcs Hrun) as (Hm & _ & H).
  by split.
Qed.

(** The tool program from its fifth declaration on: its two scopes, its
    flag and its string parameter stay ahead of the argument declared
    afterwards, and the two permitted values are added. *)
Lemma declarations_only_append_witness :
  subcommand_scopes tool_base_registry <> []
  /\ params_and_args tool_base_registry <> []
  /\ flag_names tool_base_registry <> []
  /\ exists scopes entries options names,
       subcommand_scopes tool_registry
       = (subcommand_scopes tool_base_registry ++ scopes)%list
       /\ params_and_args tool_registry
          = (params_and_args tool_base_registry ++ entries)%list
       /\ string_options tool_registry
          = (string_options tool_base_registry ++ options)%list
       /\ flag_names tool_registry
          = (flag_names tool_base_registry ++ names)%list.
Proof.
  do 3 (split; [discriminate |]).
  apply (declarations_only_append NORMAL (drop 5 tool_calls)
           tool_base_registry tool_registry tool_memory tool_memory).
  - repeat constructor.
  - reflexivity.
Defined.

(** X4. A name declared in a scope stays taken: once
    [clic_add_param_or_arg] has returned for a scope and a name, and
    whatever is declared afterwards, declaring that name again in that
    scope fails with a configuration error, whatever the type of the
    first entry and of the second, flags included. *)
Theorem redeclaration_fails
    (mode : build_mode) (i : Z) (name d : cstr) (t : clic_type) (r : bool)
    (data : inconsistent_data) (g g1 g2 : clic_globals)
    (cs : list api_call) (m m2 : mem)
    (Hfirst : clic_add_param_or_arg i name d t r data g = Ret g1)
    (Hcs : Forall (fun c => is_parse c = false) cs)
    (Hrun : run_all mode cs (g1, m) = Ret (g2, m2)) :
  (forall d' t' r' data',
     ConfigurationError (clic_add_param_or_arg i name d' t' r' data' g2))
  /\ (forall c d' v' k',
        name = Some (String c EmptyString) ->
        ConfigurationError (clic_add_param_flag i c d' v' k' g2)).
Proof.
  pose proof Hfirst as Hdeclaring.
  apply clic_add_param_or_arg_declares in Hfirst
    as (n & -> & Hv & _ & _ & ->).
  apply run_all_appends in Hrun
    as (_ & Hp & _ & entries & _ & _ & _ & He & _ & _); [| done].
  simpl in He, Hp.
  assert (is_parsed g2 = false) as Hnp.
  { rewrite Hp.
    destruct (clic_add_param_or_arg_cases i (Some n) d t r data g)
      as [(Hst & _) | [_ [msg Herr]]]; [| congruence].
    by apply state_of_Declaring in Hst as [_ ?]. }
  assert (entry_declared g2 i n) as Hdecl.
  { exists (new_entry i n d t r data). split; [| done].
    rewrite He. apply elem_of_app. left. apply elem_of_app. right.
    apply list_elem_of_here. }
  split.
  - intros d' t' r' data'.
    destruct (clic_add_param_or_arg_cases i (Some n) d' t' r' data' g2)
      as [(_ & _ & n' & [= <-] & _ & Hfresh & _) | [_ Herr]]; [done | done].
  - intros c d' v' k' [= ->]. unfold clic_add_param_flag.
    destruct (link_flag_name_cases g2 (flag_name_buffer c))
      as [(Hp' & _) | [_ ->]]; [congruence |]. cbn [bind].
    match goal with
    | |- ConfigurationError (clic_add_param_or_arg ?i ?n ?d ?t ?r ?data ?g0) =>
        destruct (clic_add_param_or_arg_cases i n d t r data g0)
          as [(_ & _ & n' & [= <-] & Hv' & Hfresh & _) | [_ Herr]];
          [| done]
    end.
    apply valid_flag_name in Hv' as [_ Hname]. rewrite Hname in Hfresh.
    exfalso. by apply Hfresh.
Qed.

(** The tool program declares the string parameter [mode] and then two
    permitted values and an argument: a boolean [mode], then, is
    refused. *)
Lemma redeclaration_fails_witness :
  ConfigurationError
    (clic_add_param_bool 0 (Some "mode") None 1 (Some verbose) 0
       tool_registry).
Proof.
  destruct (run_all NORMAL (take 4 tool_calls)
              (clic_globals_zero, tool_memory))
    as [[g0 m0] | | | |] eqn:Hbefore; try (vm_compute in Hbefore; congruence).
  destruct (clic_add_param_string 0 (Some "mode") (Some "how to run")
              (Some "fast") (Some mode_variable) 1 g0)
    as [g1 | | | |] eqn:Hfirst;
    try (vm_compute in Hbefore; injection Hbefore as <- <-;
         vm_compute in Hfirst; congruence).
  refine (proj1 (redeclaration_fails NORMAL 0 (Some "mode") _ _ _ _ g0 g1
                   tool_registry (drop 5 tool_calls) tool_memory tool_memory
                   Hfirst _ _) _ _ _ _).
  - repeat constructor.
  - vm_compute in Hbefore. injection Hbefore as <- <-.
    vm_compute in Hfirst. injection Hfirst as <-. reflexivity.
Defined.

(** ** What every registry satisfies *)

(** X5. In every registry that a program can build: the main scope is the
    scope 0; a registered subcommand has a non-zero identifier and a
    valid, non-null name; an entry has a valid name and belongs to the
    main scope or to a registered subcommand; and no two entries share
    both their scope and their name. *)
Theorem reachable_registry_is_well_formed
    (mode : build_mode) (g : clic_globals) (Hreach : reachable mode g) :
  sc_subcommand_id (main_scope g) = 0
  /\ (forall scope, scope ∈ subcommand_scopes g ->
        sc_subcommand_id scope <> 0
        /\ exists n, subcommand_name scope = Some n /\ valid_name n)
  /\ (forall e, e ∈ params_and_args g ->
        valid_name (pa_name e)
        /\ (pa_subcommand_id e = 0
            \/ exists scope, scope ∈ subcommand_scopes g
                 /\ sc_subcommand_id scope = pa_subcommand_id e))
  /\ (forall j k e1 e2,
        params_and_args g !! j = Some e1 ->
        params_and_args g !! k = Some e2 ->
        pa_subcommand_id e1 = pa_subcommand_id e2 ->
        pa_name e1 = pa_name e2 -> j = k).
Proof.
  destruct (reachable_registry_inv mode g Hreach) as [H1 H2 H3 H4].
  split; [done |]. split; [| split].
  - intros scope Hin. by apply (proj1 (Forall_forall _ _) H2).
  - intros e Hin. by apply (proj1 (Forall_forall _ _) H3).
  - intros j k e1 e2 Hj Hk Hid Hname.
    eapply NoDup_lookup; [exact H4 | |].
    + rewrite list_lookup_fmap, Hj. reflexivity.
    + rewrite list_lookup_fmap, Hk. simpl. unfold entry_key.
      by rewrite Hid, Hname.
Qed.

(** The tool program: its argument [count] has a valid name and belongs
    to the registered subcommand 2. *)
Lemma reachable_registry_is_well_formed_witness :
  sc_subcommand_id (main_scope tool_registry) = 0
  /\ valid_name "count"
  /\ exists scope, scope ∈ subcommand_scopes tool_registry
                   /\ sc_subcommand_id scope = 2.
Proof.
  destruct (reachable_registry_is_well_formed NORMAL tool_registry
              tool_registry_reachable) as (Hmain & _ & Hentries & _).
  split; [exact Hmain |].
  destruct (Hentries
              (mk_param_or_arg 2 "count" (Some "how many") CLIC_INT true
                 0 (Some count) 0 None None 0))
    as [Hv [Hz | Hsc]].
  - do 2 apply list_elem_of_further. apply list_elem_of_here.
  - discriminate.
  - by split.
Defined.

Lemma entry_declared_app g g' i n entries :
  params_and_args g' = (params_and_args g ++ entries)%list ->
  entry_declared g i n -> entry_declared g' i n.
Proof.
  intros He (e & Hin & Hid & Hname). exists e. split; [| done].
  rewrite He. apply elem_of_app. by left.
Qed.

(** The facts about the shape of the lists that hold of the zeroed
    storage and that every call preserves. *)
Lemma reachable_shape mode g :
  reachable mode g ->
  Forall entry_shape (params_and_args g)
  /\ flag_names g = pa_name <$> List.filter is_flag (params_and_args g)
  /\ Forall (string_option_refers g) (string_options g).
Proof.
  induction 1 as [| c g m g' m' _ (IH1 & IH2 & IH3) Hrun].
  - split; [constructor |]. split; [done | constructor].
  - destruct (is_init_call c) eqn:Hinit; [| destruct (is_parse c) eqn:Hparse].
    + destruct c; try discriminate. simpl in Hrun. by injection Hrun as <- _.
    + destruct c as [| | | | | | | | | fuel argv p]; try discriminate.
      cbn [run] in Hrun.
      destruct (clic_parse mode fuel argv p g m)
        as [[[k g1] m1] | | | |] eqn:Hp; try discriminate.
      simpl in Hrun. injection Hrun as <- _.
      by apply clic_parse_Ret in Hp as (_ & _ & -> & _).
    + apply run_declares in Hrun as (_ & _ & Hd); [| done | done].
      destruct Hd as [g i name d a n Hn Hv Hnz Hfresh
                     | g e Hv Hsc Hfresh Hshape
                     | g i name v n Hn Hv Hsc Hdecl]; simpl.
      * done.
      * split; [apply Forall_app; split; [done | by constructor] |].
        split.
        -- rewrite List.filter_app, fmap_app, <- IH2. simpl.
           by destruct (is_flag e).
        -- eapply Forall_impl; [exact IH3 |].
           intros so (n & Hso & Hdecl). exists n. split; [done |].
           by eapply entry_declared_app.
      * split; [done |]. split; [done |].
        apply Forall_app. split; [done |].
        constructor; [| constructor]. exists n. by split.
Qed.

(** X6. In every registry that a program can build, the type-specific
    fields of an entry are those of its type: a flag is not required, has
    a one-letter name and neither default nor string fields; a boolean is
    not required and has no string fields; an integer has no mask and no
    string fields; a string has no mask and no scalar fields; a required
    entry (an argument) has no default, and only strings can be
    restricted. And [flag_names] holds exactly the names of the flags, in
    declaration order. *)
Theorem entries_have_the_shape_of_their_type
    (mode : build_mode) (g : clic_globals) (Hreach : reachable mode g) :
  (forall e, e ∈ params_and_args g -> entry_shape e)
  /\ (forall e, e ∈ params_and_args g ->
        restrict_to_declared_options e <> 0 -> pa_type e = CLIC_STRING)
  /\ (forall e, e ∈ params_and_args g ->
        mask e <> 0 -> pa_type e = CLIC_FLAG \/ pa_type e = CLIC_BOOL)
  /\ (forall e, e ∈ params_and_args g ->
        pa_is_required e = true ->
        (pa_type e = CLIC_INT \/ pa_type e = CLIC_STRING)
        /\ scalar_default_value e = 0 /\ string_default_value e = None)
  /\ flag_names g = pa_name <$> List.filter is_flag (params_and_args g).
Proof.
  destruct (reachable_shape mode g Hreach) as (Hshape & Hnames & _).
  rewrite Forall_forall in Hshape.
  split; [done |]. split; [| split; [| split; [| done]]].
  - intros e Hin Hr. specialize (Hshape e Hin). unfold entry_shape in Hshape.
    destruct (pa_type e); [| | | done]; exfalso; tauto.
  - intros e Hin Hk. specialize (Hshape e Hin). unfold entry_shape in Hshape.
    destruct (pa_type e); [by left | by right | |]; exfalso; tauto.
  - intros e Hin Hr. specialize (Hshape e Hin). unfold entry_shape in Hshape.
    destruct (pa_type e).
    + destruct Hshape as [H _]. congruence.
    + destruct Hshape as [H _]. congruence.
    + destruct Hshape as (_ & Hs & _ & _ & Hd). split; [by left |].
      split; [by apply Hd | done].
    + destruct Hshape as (_ & Hs & _ & Hd). split; [by right |].
      split; [done | by apply Hd].
Qed.

Lemma entries_have_the_shape_of_their_type_witness :
  flag_names tool_registry
  = pa_name <$> List.filter is_flag (params_and_args tool_registry).
Proof.
  exact (proj2 (proj2 (proj2 (proj2
           (entries_have_the_shape_of_their_type NORMAL tool_registry
              tool_registry_reachable))))).
Defined.

(** X7. In every registry that a program can build, a permitted value is
    registered under a non-null name that an entry of the same scope
    carries: [clic_add_string_option] demands the entry, and no later
    declaration removes it. *)
Theorem string_options_refer_to_declared_entries
    (mode : build_mode) (g : clic_globals) (Hreach : reachable mode g) :
  forall string_option, string_option ∈ string_options g ->
    exists n e,
      so_param_or_arg_name string_option = Some n
      /\ e ∈ params_and_args g
      /\ pa_subcommand_id e = so_subcommand_id string_option
      /\ pa_name e = n.
Proof.
  destruct (reachable_shape mode g Hreach) as (_ & _ & Hrefers).
  rewrite Forall_forall in Hrefers.
  intros so Hin. destruct (Hrefers so Hin) as (n & Hn & e & He & Hid & Hname).
  by exists n, e.
Qed.

(** The tool program: the permitted value "slow" refers to the declared
    parameter [mode]. *)
Lemma string_options_refer_to_declared_entries_witness :
  exists n e,
    Some "mode" = Some n
    /\ e ∈ params_and_args tool_registry
    /\ pa_subcommand_id e = 0
    /\ pa_name e = n.
Proof.
  apply (string_options_refer_to_declared_entries NORMAL tool_registry
           tool_registry_reachable
           (mk_string_option 0 (Some "mode") (Some "slow"))).
  apply list_elem_of_further, list_elem_of_here.
Defined.

(** ** Looking an entry up *)

Lemma find_snoc {A} (f : A -> bool) (l : list A) (x : A) :
  find f (l ++ [x])
  = match find f l with
    | Some y => Some y
    | None => if f x then Some x else None
    end.
Proof.
  induction l as [| a l IH]; simpl; [done |]. by destruct (f a).
Qed.

Lemma param_matches_spec active n e :
  param_matches active n e = true
  <-> pa_subcommand_id e = sc_subcommand_id active /\ pa_name e = n.
Proof.
  unfold param_matches. rewrite andb_true_iff, Z.eqb_eq, streq_eq.
  split; intros [H1 H2]; by split.
Qed.

Lemma find_param_None g active n :
  find (param_matches active n) (params_and_args g) = None
  <-> ~ entry_declared g (sc_subcommand_id active) n.
Proof.
  pose proof (find_first (param_matches active n) (params_and_args g)) as H.
  destruct (find _ _) as [e|].
  - destruct H as (before & after & Heq & _ & He).
    apply param_matches_spec in He as [Hid Hname].
    split; [discriminate |]. intros Hnot. exfalso. apply Hnot.
    exists e. split; [| done]. rewrite Heq. apply elem_of_app. right.
    apply list_elem_of_here.
  - split; [| done]. intros _ (e & Hin & Hid & Hname).
    rewrite Forall_forall in H. specialize (H e Hin).
    assert (param_matches active n e = true) as Habs
      by (by apply param_matches_spec).
    congruence.
Qed.

(** X8. In every registry that a program can build, the lookup of the
    parameter loop (scope of the active scope, name of the token) yields
    an entry exactly when that entry is registered under that scope and
    that name: uniqueness makes the first match the only one. *)
Theorem lookup_finds_the_declared_entry
    (mode : build_mode) (g : clic_globals) (active : clic_scope)
    (n : string) (e : clic_param_or_arg) (Hreach : reachable mode g) :
  find (param_matches active n) (params_and_args g) = Some e
  <-> e ∈ params_and_args g
      /\ pa_subcommand_id e = sc_subcommand_id active
      /\ pa_name e = n.
Proof.
  pose proof (inv_unique g (reachable_registry_inv mode g Hreach)) as Hnd.
  pose proof (find_first (param_matches active n) (params_and_args g)) as H.
  split.
  - intros Hfind. rewrite Hfind in H.
    destruct H as (before & after & Heq & _ & He).
    apply param_matches_spec in He. split; [| done].
    rewrite Heq. apply elem_of_app. right. apply list_elem_of_here.
  - intros (Hin & Hid & Hname).
    destruct (find _ _) as [e'|].
    + destruct H as (before & after & Heq & _ & He').
      apply param_matches_spec in He' as [Hid' Hname'].
      assert (e' ∈ params_and_args g) as Hin'.
      { rewrite Heq. apply elem_of_app. right. apply list_elem_of_here. }
      apply list_elem_of_lookup in Hin as [j Hj].
      apply list_elem_of_lookup in Hin' as [k Hk].
      assert (j = k) as ->; [| congruence].
      eapply NoDup_lookup; [exact Hnd | |].
      * rewrite list_lookup_fmap, Hj. reflexivity.
      * rewrite list_lookup_fmap, Hk. simpl. unfold entry_key.
        by rewrite Hid, Hname, Hid', Hname'.
    + rewrite Forall_forall in H. specialize (H e Hin).
      assert (param_matches active n e = true) as Habs
        by (by apply param_matches_spec).
      congruence.
Qed.

Lemma lookup_finds_the_declared_entry_witness :
  exists e,
    find (param_matches (main_scope tool_registry) "mode")
         (params_and_args tool_registry) = Some e
    /\ pa_type e = CLIC_STRING.
Proof.
  exists (mk_param_or_arg 0 "mode" (Some "how to run") CLIC_STRING false
            0 None 0 (Some "fast") (Some mode_variable) 1).
  split; [| reflexivity].
  apply (lookup_finds_the_declared_entry NORMAL tool_registry
           (main_scope tool_registry) "mode" _ tool_registry_reachable).
  split; [| split; reflexivity].
  apply list_elem_of_further, list_elem_of_here.
Defined.

(** X9. Declaring then looking up: once [clic_add_param_or_arg] has
    returned, the lookup of the parameter loop under the scope and the
    name just declared yields the new entry, with the description, the
    type and the fields it was declared with, and the lookup under any
    other scope or name yields what it yielded before. *)
Theorem declared_entry_is_looked_up
    (i : Z) (name d : cstr) (t : clic_type) (r : bool)
    (data : inconsistent_data) (g g' : clic_globals)
    (Hret : clic_add_param_or_arg i name d t r data g = Ret g') :
  exists n, name = Some n
    /\ (forall active, sc_subcommand_id active = i ->
          find (param_matches active n) (params_and_args g')
          = Some (new_entry i n d t r data))
    /\ (forall active n',
          sc_subcommand_id active <> i \/ n' <> n ->
          find (param_matches active n') (params_and_args g')
          = find (param_matches active n') (params_and_args g)).
Proof.
  apply clic_add_param_or_arg_declares in Hret
    as (n & -> & Hv & Hsc & Hfresh & ->).
  exists n. split; [done |]. simpl. split.
  - intros active Hid. rewrite find_snoc.
    assert (find (param_matches active n) (params_and_args g) = None) as ->.
    { apply find_param_None. by rewrite Hid. }
    assert (param_matches active n (new_entry i n d t r data) = true) as ->;
      [| done].
    by apply param_matches_spec.
  - intros active n' Hother. rewrite find_snoc.
    destruct (find _ (params_and_args g)); [done |].
    destruct (param_matches active n' (new_entry i n d t r data)) eqn:Hm;
      [| done].
    apply param_matches_spec in Hm as [Hid Hname]. simpl in *.
    destruct Hother; congruence.
Qed.

Lemma declared_entry_is_looked_up_witness :
  exists g',
    clic_add_param_int 0 (Some "jobs") None 4 (Some count) demo_registry
    = Ret g'
    /\ exists e,
         find (param_matches (main_scope g') "jobs") (params_and_args g')
         = Some e
         /\ pa_type e = CLIC_INT /\ scalar_default_value e = 4.
Proof.
  eexists. split; [reflexivity |].
  destruct (declared_entry_is_looked_up 0 (Some "jobs") None CLIC_INT false
              (mk_inconsistent 4 (Some count) 0 None None 0)
              demo_registry _ eq_refl) as (n & [= <-] & Hfound & _).
  eexists. split; [apply Hfound; reflexivity |]. by split.
Defined.

(** ** Registering a subcommand, then selecting it *)

Lemma names_subcommand_find g argv tok :
  argv !! 1%nat = Some tok ->
  (exists scope, names_subcommand g argv scope)
  <-> find (scope_named tok) (subcommand_scopes g) <> None.
Proof.
  intros Htok.
  pose proof (find_first (scope_named tok) (subcommand_scopes g)) as H.
  destruct (find _ _) as [scope|].
  - destruct H as (before & after & Heq & _ & Hs).
    apply scope_named_spec in Hs.
    split; [done |]. intros _. exists scope. split; [| by exists tok].
    rewrite Heq. apply elem_of_app. right. apply list_elem_of_here.
  - split; [| done]. intros (scope & Hin & tok' & Htok' & Hname).
    rewrite Htok in Htok'. injection Htok' as <-.
    rewrite Forall_forall in H. specialize (H scope Hin).
    apply scope_named_spec in Hname. congruence.
Qed.

(** X10. Registering then selecting: once [clic_add_subcommand] has
    returned, an invocation whose first token is the new name selects the
    new scope and counts 1 token, unless a scope was already registered
    under that name, in which case that earlier scope is still the one
    selected and the new one never is; every other invocation selects
    what it selected before. *)
Theorem registered_subcommand_is_selected_unless_shadowed
    (i : Z) (name d : cstr) (a : Z) (g g' : clic_globals)
    (Hret : clic_add_subcommand i name d a g = Ret g') :
  exists n, name = Some n
    /\ (forall argv, (exists scope, names_subcommand g argv scope) ->
          detect_subcommand g' argv = detect_subcommand g argv)
    /\ (forall argv, argv !! 1%nat <> Some n ->
          detect_subcommand g' argv = detect_subcommand g argv)
    /\ (forall argv, argv !! 1%nat = Some n ->
          (~ exists scope, names_subcommand g argv scope) ->
          detect_subcommand g' argv = (mk_scope i name d a, 1)).
Proof.
  destruct (clic_add_subcommand_cases i name d a g)
    as [[(_ & Hnz & n & -> & Hv & Hfresh) Heq] | [_ [msg Herr]]];
    [| congruence].
  rewrite Heq in Hret. injection Hret as <-.
  exists n. split; [done |].
  assert (forall g0 argv tok, argv !! 1%nat = Some tok ->
            detect_subcommand g0 argv
            = match find (scope_named tok) (subcommand_scopes g0) with
              | Some scope => (scope, 1)
              | None => (main_scope g0, 0)
              end) as Hdetect.
  { intros g0 argv tok Htok. unfold detect_subcommand.
    assert ((1 <? argc_of argv) = true) as Hargc
      by (apply argc_gt_1; by exists tok).
    by rewrite Hargc, (argv_at_1 argv Hargc), Htok. }
  assert (forall argv, argv !! 1%nat = None ->
            forall g0, detect_subcommand g0 argv = (main_scope g0, 0))
    as Hnone.
  { intros argv Htok g0. unfold detect_subcommand.
    destruct (1 <? argc_of argv) eqn:Hargc; [| done].
    apply argc_gt_1 in Hargc as [tok Htok']. congruence. }
  split; [| split].
  - intros argv (scope & Hin & tok & Htok & Hname).
    rewrite !(Hdetect _ argv tok Htok). simpl. rewrite find_snoc.
    assert (find (scope_named tok) (subcommand_scopes g) <> None) as Hf.
    { apply (names_subcommand_find g argv tok Htok). exists scope.
      split; [done |]. by exists tok. }
    by destruct (find (scope_named tok) (subcommand_scopes g)).
  - intros argv Hne. destruct (argv !! 1%nat) as [tok|] eqn:Htok.
    + rewrite !(Hdetect _ argv tok Htok). simpl. rewrite find_snoc.
      destruct (find (scope_named tok) (subcommand_scopes g)); [done |].
      destruct (scope_named tok (mk_scope i (Some n) d a)) eqn:Hs; [| done].
      apply scope_named_spec in Hs. simpl in Hs. congruence.
    + by rewrite !(Hnone argv Htok).
  - intros argv Htok Hno.
    rewrite (Hdetect _ argv n Htok). simpl. rewrite find_snoc.
    destruct (find (scope_named n) (subcommand_scopes g)) eqn:Hf.
    + exfalso. apply Hno. apply (names_subcommand_find g argv n Htok).
      by rewrite Hf.
    + assert (scope_named n (mk_scope i (Some n) d a) = true) as ->;
        [| done].
      by apply scope_named_spec.
Qed.

Lemma registered_subcommand_is_selected_unless_shadowed_witness :
  exists g',
    clic_add_subcommand 3 (Some "run") None 1 tool_registry = Ret g'
    /\ detect_subcommand g' ["tool"; "run"; "x"]
       = (mk_scope 3 (Some "run") None 1, 1)
    /\ detect_subcommand g' ["tool"; "test"]
       = detect_subcommand tool_registry ["tool"; "test"].
Proof.
  eexists. split; [reflexivity |].
  destruct (registered_subcommand_is_selected_unless_shadowed 3 (Some "run")
              None 1 tool_registry _ eq_refl)
    as (n & [= <-] & _ & Hother & Hnew).
  split.
  - apply Hnew; [reflexivity |].
    intros (scope & Hin & tok & [= <-] & Hname).
    vm_compute in Hin.
    apply elem_of_cons in Hin as [-> | Hin]; [discriminate |].
    apply list_elem_of_singleton in Hin as ->. discriminate.
  - apply Hother. discriminate.
Defined.

(** ** The syntax of a parameter *)

Lemma append_cons a p n : (String a p ++ n)%string = String a (p ++ n)%string.
Proof. reflexivity. Qed.

Lemma append_nil n : ("" ++ n)%string = n.
Proof. reflexivity. Qed.

Lemma has_prefix_spec p s :
  has_prefix p s = true <-> s = (p ++ string_drop (String.length p) s)%string.
Proof.
  unfold has_prefix. revert s.
  induction p as [| a p IH]; intros [| b s]; simpl; try done.
  rewrite append_cons.
  destruct (ascii_dec a b) as [-> | Hne].
  - split.
    + intros H. apply IH in H. by f_equal.
    + intros [= H]. by apply IH.
  - split; [discriminate |]. intros [= <- _]. done.
Qed.

Lemma has_prefix_app p n : has_prefix p (p ++ n) = true.
Proof.
  unfold has_prefix. induction p as [| a p IH].
  - rewrite append_nil. by destruct n.
  - rewrite append_cons. simpl. by destruct (ascii_dec a a).
Qed.

Lemma string_drop_app p n : string_drop (String.length p) (p ++ n) = n.
Proof.
  induction p as [| a p IH]; [by destruct n |].
  rewrite append_cons. simpl. exact IH.
Qed.

Lemma short_flag_syntax s :
  Ascii.eqb (char_at s 0) "-" && isalpha (char_at s 1)
  && Nat.eqb (String.length s) 2 = true
  <-> exists c, alphabetic c /\ s = String "-" (String c EmptyString).
Proof.
  split.
  - intros [[H0 H1]%andb_true_iff H2]%andb_true_iff.
    destruct s as [| a [| b [| ? ?]]]; try discriminate.
    unfold char_at in *. simpl in *.
    apply Ascii.eqb_eq in H0 as ->. apply isalpha_alphabetic in H1.
    by exists b.
  - intros (c & Hc & ->). unfold char_at. simpl.
    apply isalpha_alphabetic in Hc. by rewrite Hc.
Qed.

(** X11. The syntax that the parameter loop recognizes, and the name it
    looks up, for every token other than [--], which the loop handles
    before and which ends the scan: the token designates a name exactly
    when it is a dash and one letter (the name is the letter), or starts
    with [--no-] (the name is what follows), or starts with [--] but not
    with [--no-] (the name is what follows [--]). The loop does not end
    its scan on such a token; on every other token, a dash followed by a
    digit or by several letters for instance, it ends the scan and does
    not count the token. *)
Theorem parameter_syntax (s : string) (Hs : s <> "--") :
  match parameter_name s with
  | Some n =>
      (exists c, alphabetic c /\ s = String "-" (String c EmptyString)
                 /\ n = String c EmptyString)
      \/ s = ("--no-" ++ n)%string
      \/ (s = ("--" ++ n)%string /\ n <> EmptyString
          /\ has_prefix "no-" n = false)
  | None =>
      has_prefix "--" s = false
      /\ forall c, alphabetic c -> s <> String "-" (String c EmptyString)
  end
  /\ (forall g active argv nb,
        argv_at argv (1 + nb) = Ret (Some s) ->
        match parameter_name s with
        | Some n =>
            forall nb', eat_parameter g active argv nb <> Ret (Break nb')
        | None => eat_parameter g active argv nb = Ret (Break nb)
        end).
Proof.
  split.
  - unfold parameter_name.
    pose proof (short_flag_syntax s) as Hshort.
    destruct (Ascii.eqb (char_at s 0) "-" && isalpha (char_at s 1)
              && Nat.eqb (String.length s) 2).
    + left. destruct (proj1 Hshort eq_refl) as (c & Hc & ->). by exists c.
    + pose proof (has_prefix_spec "--no-" s) as Hno.
      destruct (has_prefix "--no-" s).
      * right. left. by apply Hno.
      * pose proof (has_prefix_spec "--" s) as Hdd.
        destruct (has_prefix "--" s).
        -- right. right. pose proof (proj1 Hdd eq_refl) as Heq.
           split; [exact Heq |]. split.
           { intros Hempty. apply Hs. rewrite Heq.
             change (String.length "--") with 2%nat. by rewrite Hempty. }
           destruct (has_prefix "no-" (string_drop 2 s)) eqn:Hn; [| done].
           apply has_prefix_spec in Hn.
           assert (false = true) as Habs; [| discriminate].
           apply (proj2 Hno).
           change (String.length "--no-") with 5%nat.
           change (String.length "--") with 2%nat in Heq.
           change (String.length "no-") with 3%nat in Hn.
           destruct s as [| c0 [| c1 s]]; try discriminate.
           cbn in Heq, Hn. injection Heq as -> ->.
           destruct s as [| c2 [| c3 [| c4 s]]]; try discriminate.
           simpl in Hn. injection Hn as -> -> ->. reflexivity.
        -- split; [done |]. intros c Hc ->.
           assert (false = true) as Habs; [| discriminate].
           apply (proj2 Hshort). by exists c.
  - intros g active argv nb Htok. unfold eat_parameter.
    rewrite Htok. cbn [bind].
    apply argv_at_Some in Htok as [Hbounds _].
    rewrite (argv_at_in_bounds argv (1 + nb + 1)) by lia.
    destruct (streq s "--") eqn:Hdash.
    { apply streq_eq in Hdash. contradiction. }
    destruct (parameter_name s) as [n |]; [| done].
    intros nb'. unfold clic_print_help.
    destruct (find _ _); cbn [bind]; [discriminate |].
    destruct (streq s "--help"); [discriminate |].
    by destruct (streq s "--version" && _).
Qed.

(** The plain program invoked as [plain -5] and as [plain --color]: the
    first token is not a parameter and ends the scan, the second is. *)
Lemma parameter_syntax_witness :
  eat_parameter plain_registry (main_scope plain_registry) ["plain"; "-5"] 0
  = Ret (Break 0)
  /\ eat_parameter plain_registry (main_scope plain_registry)
       ["plain"; "--color"] 0 <> Ret (Break 0).
Proof.
  split.
  - apply (proj2 (parameter_syntax "-5" ltac:(discriminate)) plain_registry
             (main_scope plain_registry) ["plain"; "-5"] 0 eq_refl).
  - apply (proj2 (parameter_syntax "--color" ltac:(discriminate))
             plain_registry (main_scope plain_registry)
             ["plain"; "--color"] 0 eq_refl 0).
Defined.

Lemma string_drop_shorter k n :
  n <> EmptyString -> string_drop (S k) n <> n.
Proof.
  intros Hne Heq.
  assert (forall j s, (String.length (string_drop j s) <= String.length s)%nat)
    as Hle.
  { induction j as [| j IH]; intros [| a s]; simpl; try lia.
    specialize (IH s). lia. }
  destruct n as [| a n]; [done |]. simpl in Heq.
  pose proof (Hle k n) as H. rewrite Heq in H. simpl in H. lia.
Qed.

(** The name that [--] followed by [m] designates. *)
Lemma double_dash_name m :
  parameter_name ("--" ++ m)
  = if has_prefix "no-" m then Some (string_drop 3 m) else Some m.
Proof.
  unfold parameter_name.
  pose proof (has_prefix_app "--" m) as Hdd.
  change ("--" +:+ m) with (String "-" (String "-" m)) in *.
  change (has_prefix "--no-" (String "-" (String "-" m)))
    with (has_prefix "no-" m).
  change (Ascii.eqb (char_at (String "-" (String "-" m)) 0) "-"
          && isalpha (char_at (String "-" (String "-" m)) 1)) with false.
  cbn [andb]. rewrite Hdd. by destruct (has_prefix "no-" m).
Qed.

(** X12. From a declared name to the tokens that designate it. For a
    valid name: [--no-] followed by the name always designates it; [--]
    followed by the name designates it unless the name itself starts
    with [no-], in which case the token designates another name, the one
    that follows [no-]; and a one-letter name is also designated by a
    dash followed by the letter. *)
Theorem tokens_of_a_declared_name (n : string) (Hv : valid_name n) :
  parameter_name ("--no-" ++ n) = Some n
  /\ (has_prefix "no-" n = false -> parameter_name ("--" ++ n) = Some n)
  /\ (has_prefix "no-" n = true ->
        parameter_name ("--" ++ n) = Some (string_drop 3 n)
        /\ string_drop 3 n <> n)
  /\ (forall c, n = String c EmptyString ->
        parameter_name (String "-" n) = Some n).
Proof.
  destruct Hv as (Hne & (c0 & rest & Heq & Hc0) & _).
  split; [| split; [| split]].
  - rewrite <- (string_drop_app "no-" n) at 2.
    change ("--no-" +:+ n) with ("--" +:+ ("no-" +:+ n)).
    rewrite double_dash_name. by rewrite has_prefix_app.
  - intros Hno. by rewrite double_dash_name, Hno.
  - intros Hno. rewrite double_dash_name, Hno.
    split; [done | by apply string_drop_shorter].
  - intros c ->. injection Heq as <- _.
    unfold parameter_name, char_at. cbn.
    apply isalpha_alphabetic in Hc0. by rewrite Hc0.
Qed.

Lemma tokens_of_a_declared_name_witness :
  parameter_name "--no-color" = Some "color"
  /\ parameter_name "--color" = Some "color"
  /\ parameter_name "--no-cache" = Some "cache"
  /\ parameter_name "-v" = Some "v".
Proof.
  assert (valid_name "color") as Hcolor.
  { split; [done |]. split; [exists "c"%char, "olor"; split; [done |];
                              right; vm_compute; lia |].
    repeat constructor; left; right; vm_compute; lia. }
  assert (valid_name "no-cache") as Hcache.
  { split; [done |]. split; [exists "n"%char, "o-cache"; split; [done |];
                              right; vm_compute; lia |].
    repeat (constructor;
            [first [by right; left
                   | left; right; vm_compute; lia] |]).
    constructor. }
  assert (valid_name "v") as Hflag.
  { split; [done |]. split; [exists "v"%char, ""; split; [done |];
                              right; vm_compute; lia |].
    repeat constructor; left; right; vm_compute; lia. }
  split; [apply (proj1 (tokens_of_a_declared_name "color" Hcolor)) |].
  split; [apply (proj1 (proj2 (tokens_of_a_declared_name "color" Hcolor)));
          reflexivity |].
  split;
    [apply (proj1 (proj1 (proj2 (proj2
              (tokens_of_a_declared_name "no-cache" Hcache))) eq_refl)) |].
  apply (proj2 (proj2 (proj2 (tokens_of_a_declared_name "v" Hflag))) "v"%char).
  reflexivity.
Defined.

(** ** Invocations that [clic_parse] returns from *)

Lemma eat_named_arguments_none g active argv nb :
  no_named_argument g active ->
  eat_named_arguments g active argv nb = Ret nb.
Proof.
  unfold no_named_argument, eat_named_arguments.
  induction (params_and_args g) as [| e l IH]; intros Hnone; [done |].
  cbn [eat_named_arguments_of]. unfold eat_named_argument.
  destruct (Z.eqb_spec (sc_subcommand_id active) (pa_subcommand_id e))
    as [Hid | Hid]; simpl.
  - rewrite (Hnone e); [| apply list_elem_of_here | done]. simpl.
    apply IH. intros e' Hin. apply Hnone. by apply list_elem_of_further.
  - apply IH. intros e' Hin. apply Hnone. by apply list_elem_of_further.
Qed.

Lemma clic_parse_NORMAL fuel argv l g m :
  state_of g = Declaring ->
  clic_parse NORMAL fuel argv (Some l) g m
  = let active := (detect_subcommand g argv).1 in
    let! nb := eat_parameters fuel (set_is_parsed g) active argv
                 (detect_subcommand g argv).2 in
    let! nb' := eat_named_arguments (set_is_parsed g) active argv nb in
    let! g' := clic_cleanup (set_is_parsed g) in
    Ret (nb', g', <[l := Vint (sc_subcommand_id active)]> m).
Proof.
  intros Hst. unfold clic_parse.
  by rewrite clic_parse_detect_NORMAL.
Qed.

(** The detection step counts a token only when there is one. *)
Lemma detect_subcommand_count g argv :
  (detect_subcommand g argv).2 = 0
  \/ ((detect_subcommand g argv).2 = 1 /\ 1 < argc_of argv).
Proof.
  unfold detect_subcommand.
  destruct (Z.ltb_spec 1 (argc_of argv)) as [Hlt | Hge]; [| by left].
  destruct (argv_at argv 1) as [[a |] | | | |]; try (by left).
  destruct (find _ _); [by right | by left].
Qed.

(** X13. In a normal build, with a registry in the Declaring state that
    holds no flag and whose active scope has no named argument, and with
    an argument vector that holds at least the program name: when the
    token that follows the subcommand, if any, is [--], [clic_parse]
    returns the count of the detection step plus 1 and reads no further,
    whatever follows; when there is no such token, or when it has not
    the syntax of a parameter, [clic_parse] returns the count of the
    detection step. In both cases the registry is left Parsed and the
    only variable written is the one [subcommand_id] designates. *)
Theorem parse_returns_at_the_first_positional_token
    (g : clic_globals) (argv : list string) (l : loc) (m : mem) (fuel : nat)
    (Hst : state_of g = Declaring)
    (Hflags : flag_names g = [])
    (Hargv : argv <> [])
    (Hnone : no_named_argument g (detect_subcommand g argv).1) :
  (argv !! Z.to_nat (1 + (detect_subcommand g argv).2) = Some "--" ->
     clic_parse NORMAL (S fuel) argv (Some l) g m
     = Ret ((detect_subcommand g argv).2 + 1,
            set_is_parsed g,
            <[l := Vint (sc_subcommand_id (detect_subcommand g argv).1)]> m))
  /\ ((argv !! Z.to_nat (1 + (detect_subcommand g argv).2) = None
       \/ exists s,
            argv !! Z.to_nat (1 + (detect_subcommand g argv).2) = Some s
            /\ parameter_name s = None) ->
       clic_parse NORMAL (S fuel) argv (Some l) g m
       = Ret ((detect_subcommand g argv).2,
              set_is_parsed g,
              <[l := Vint (sc_subcommand_id (detect_subcommand g argv).1)]> m))
  /\ state_of (set_is_parsed g) = Parsed.
Proof.
  assert (argv_at argv (1 + (detect_subcommand g argv).2)
          = Ret (argv !! Z.to_nat (1 + (detect_subcommand g argv).2)))
    as Hread.
  { apply argv_at_in_bounds.
    assert (1 <= argc_of argv).
    { unfold argc_of. destruct argv; [done |]. simpl. lia. }
    destruct (detect_subcommand_count g argv) as [-> | [-> ?]]; lia. }
  rewrite clic_parse_NORMAL by done. cbv zeta.
  rewrite (clic_cleanup_no_flag (set_is_parsed g)) by done.
  split; [| split].
  - intros Htok. cbn [eat_parameters]. unfold eat_parameter.
    rewrite Hread, Htok. simpl. by rewrite eat_named_arguments_none.
  - intros [Htok | (s & Htok & Hsyn)]; cbn [eat_parameters];
      unfold eat_parameter; rewrite Hread, Htok.
    + simpl. by rewrite eat_named_arguments_none.
    + cbn [bind]. destruct (streq s "--") eqn:Hs.
      { apply streq_eq in Hs as ->. discriminate. }
      rewrite Hsyn. simpl. by rewrite eat_named_arguments_none.
  - apply state_of_Declaring in Hst as [Hi _].
    unfold state_of. simpl. by rewrite Hi.
Qed.

(** The plain program invoked as [plain -- --color]: the parameter after
    the sentinel is left to the caller. *)
Lemma parse_returns_at_the_first_positional_token_witness :
  clic_parse NORMAL 1 ["plain"; "--"; "--color"] (Some invoked)
    plain_registry plain_memory
  = Ret (1, set_is_parsed plain_registry,
         <[invoked := Vint 0]> plain_memory).
Proof.
  assert (no_named_argument plain_registry
            (detect_subcommand plain_registry
               ["plain"; "--"; "--color"]).1) as Hnone.
  { intros e Hin _.
    apply elem_of_cons in Hin as [-> | Hin]; [done |].
    apply list_elem_of_singleton in Hin. by subst e. }
  apply (proj1 (parse_returns_at_the_first_positional_token plain_registry
                  ["plain"; "--"; "--color"] invoked plain_memory 0
                  eq_refl eq_refl ltac:(discriminate) Hnone)).
  reflexivity.
Defined.

(** ** Help and version *)

(** X14. In a normal build, with a registry in the Declaring state, when
    the token that follows the subcommand, if any, is [--help] and the
    active scope declares no entry named [help], [clic_parse] exits
    successfully; when it is [--version], the active scope declares no
    entry named [version] and [clic_init] was given a version,
    [clic_parse] prints that version and exits successfully. A declared
    entry named [help] or [version] takes precedence: the turn of the
    loop hands the token to that entry and does not exit. Without a
    version, [--version] does not exit either. *)
Theorem help_and_version_exit_unless_declared
    (g : clic_globals) (argv : list string) (l : loc) (m : mem) (fuel : nat)
    (Hst : state_of g = Declaring) :
  (argv_at argv (1 + (detect_subcommand g argv).2) = Ret (Some "--help") ->
   ~ entry_declared g (sc_subcommand_id (detect_subcommand g argv).1) "help"
   -> clic_parse NORMAL (S fuel) argv (Some l) g m = Exited None)
  /\ (forall v,
        argv_at argv (1 + (detect_subcommand g argv).2)
        = Ret (Some "--version") ->
        ~ entry_declared g (sc_subcommand_id (detect_subcommand g argv).1)
            "version" ->
        version (metadata g) = Some v ->
        clic_parse NORMAL (S fuel) argv (Some l) g m = Exited (Some v))
  /\ (forall active nb s e,
        argv_at argv (1 + nb) = Ret (Some s) ->
        s = "--help" \/ s = "--version" ->
        find (param_matches active (string_drop 2 s)) (params_and_args g)
        = Some e ->
        eat_parameter g active argv nb
        = Ret (Continue
                 (nb + clic_parse_param_or_arg e (Some s)
                         (argv !! Z.to_nat (1 + nb + 1)))))
  /\ (forall active nb out,
        argv_at argv (1 + nb) = Ret (Some "--version") ->
        version (metadata g) = None ->
        eat_parameter g active argv nb <> Exited out).
Proof.
  split; [| split; [| split]].
  - intros Htok Hnot. rewrite clic_parse_NORMAL by done. cbv zeta.
    cbn [eat_parameters]. unfold eat_parameter. rewrite Htok. cbn [bind].
    change (streq "--help" "--") with false.
    change (parameter_name "--help") with (Some "help"). cbv iota.
    assert (find (param_matches (detect_subcommand g argv).1 "help")
                 (params_and_args (set_is_parsed g)) = None) as ->
      by (by apply (find_param_None (set_is_parsed g))).
    reflexivity.
  - intros v Htok Hnot Hv. rewrite clic_parse_NORMAL by done. cbv zeta.
    cbn [eat_parameters]. unfold eat_parameter. rewrite Htok. cbn [bind].
    change (streq "--version" "--") with false.
    change (parameter_name "--version") with (Some "version"). cbv iota.
    assert (find (param_matches (detect_subcommand g argv).1 "version")
                 (params_and_args (set_is_parsed g)) = None) as ->
      by (by apply (find_param_None (set_is_parsed g))).
    change (streq "--version" "--help") with false. cbv iota.
    change (streq "--version" "--version") with true.
    change (metadata (set_is_parsed g)) with (metadata g). rewrite Hv.
    reflexivity.
  - intros active nb s e Htok Hs Hfind. unfold eat_parameter.
    rewrite Htok. cbn [bind].
    apply argv_at_Some in Htok as [Hbounds _].
    rewrite (argv_at_in_bounds argv (1 + nb + 1)) by lia.
    destruct Hs as [-> | ->]; simpl in Hfind |- *.
    + change (parameter_name "--help") with (Some "help"). cbv iota.
      by rewrite Hfind.
    + change (parameter_name "--version") with (Some "version"). cbv iota.
      by rewrite Hfind.
  - intros active nb out Htok Hv. unfold eat_parameter.
    rewrite Htok. cbn [bind].
    apply argv_at_Some in Htok as [Hbounds _].
    rewrite (argv_at_in_bounds argv (1 + nb + 1)) by lia.
    change (streq "--version" "--") with false.
    change (parameter_name "--version") with (Some "version"). cbv iota.
    destruct (find _ _); [discriminate |].
    change (streq "--version" "--help") with false. cbv iota.
    rewrite Hv. simpl. discriminate.
Qed.

(** The demonstration program, which was given the version "1.0.0" and
    declares neither [help] nor [version]. *)
Lemma help_and_version_exit_unless_declared_witness :
  clic_parse NORMAL 1 ["demo"; "--help"] (Some invoked) demo_registry
    demo_memory = Exited None
  /\ clic_parse NORMAL 1 ["demo"; "--version"] (Some invoked) demo_registry
       demo_memory = Exited (Some "1.0.0").
Proof.
  assert (forall n, n <> "v" ->
            ~ entry_declared demo_registry 0 n) as Hnot.
  { intros n Hn (e & Hin & _ & Hname).
    apply list_elem_of_singleton in Hin. by subst e. }
  split.
  - apply (proj1 (help_and_version_exit_unless_declared demo_registry
                    ["demo"; "--help"] invoked demo_memory 0 eq_refl));
      [reflexivity |]. by apply Hnot.
  - apply (proj1 (proj2 (help_and_version_exit_unless_declared demo_registry
                           ["demo"; "--version"] invoked demo_memory 0
                           eq_refl)));
      [reflexivity | by apply Hnot | reflexivity].
Defined.

(** ** Dump builds *)

Lemma reachable_dump_not_Parsed mode g :
  mode <> NORMAL -> reachable mode g -> is_parsed g = false.
Proof.
  intros Hmode. induction 1 as [| c g m g' m' _ IH Hrun]; [done |].
  destruct (is_init_call c) eqn:Hinit.
  - destruct c; try discriminate. simpl in Hrun. by injection Hrun as <- _.
  - destruct (is_parse c) eqn:Hparse.
    + destruct c as [| | | | | | | | | fuel argv p]; try discriminate.
      cbn [run] in Hrun.
      destruct (clic_parse mode fuel argv p g m)
        as [[[k g1] m1] | | | |] eqn:Hp; try discriminate.
      by apply clic_parse_Ret in Hp as (_ & Hn & _).
    + apply run_Ret_state in Hrun as [_ Hst]; [| done].
      rewrite Hparse in Hst. by apply state_of_Declaring in Hst as [_ ?].
Qed.

(** X15. In a build that defines [CLIC_DUMP_SYNOPSIS] or
    [CLIC_DUMP_OPTIONS], [clic_parse] called in the Declaring state exits
    successfully before it reads the argument vector or writes through
    [subcommand_id], which may then be null; it never returns, so that in
    such a build no registry is ever Parsed. *)
Theorem dump_build_exits_instead_of_parsing
    (mode : build_mode) (Hmode : mode <> NORMAL) :
  (forall fuel argv p g m,
     state_of g = Declaring ->
     clic_parse mode fuel argv p g m = Exited None)
  /\ (forall g, reachable mode g -> state_of g <> Parsed).
Proof.
  split.
  - intros fuel argv p g m Hst. unfold clic_parse, clic_parse_detect.
    destruct (lifecycle_check_cases g) as [[_ ->] | [H _]]; [| done].
    by destruct mode.
  - intros g Hreach Hst.
    pose proof (reachable_dump_not_Parsed mode g Hmode Hreach) as Hp.
    unfold state_of in Hst. rewrite Hp in Hst. by destruct (is_init g).
Qed.

Lemma dump_build_exits_instead_of_parsing_witness :
  clic_parse CLIC_DUMP_SYNOPSIS 0 ["demo"; "-v"] None demo_registry
    demo_memory = Exited None.
Proof.
  apply (proj1 (dump_build_exits_instead_of_parsing CLIC_DUMP_SYNOPSIS
                  ltac:(discriminate))).
  reflexivity.
Defined.

(** ** After the parse *)

(** X16. A registry that has been parsed is never reopened: from the
    Parsed state, a sequence of calls returns only if all of them are
    calls of [clic_init], and it then leaves the registry Parsed, its
    four lists and the caller's variables as they were. *)
Theorem parsed_registry_is_never_reopened
    (mode : build_mode) (cs : list api_call) (g g' : clic_globals)
    (m m' : mem)
    (Hst : state_of g = Parsed)
    (Hrun : run_all mode cs (g, m) = Ret (g', m')) :
  state_of g' = Parsed
  /\ m' = m
  /\ Forall (fun c => is_init_call c = true) cs
  /\ subcommand_scopes g' = subcommand_scopes g
  /\ params_and_args g' = params_and_args g
  /\ string_options g' = string_options g
  /\ flag_names g' = flag_names g.
Proof.
  revert g m Hst Hrun.
  induction cs as [| c cs IH]; cbn [run_all]; intros g m Hst.
  - intros [= <- <-]. by repeat split.
  - destruct (run mode c (g, m)) as [[g1 m1] | | | |] eqn:Hc;
      cbn [bind]; try discriminate.
    intros Hrest. destruct (is_init_call c) eqn:Hinit.
    + destruct c as [p v li d a | | | | | | | | |]; try discriminate.
      simpl in Hc. injection Hc as <- <-.
      apply IH in Hrest as (H1 & H2 & H3 & H4 & H5 & H6 & H7).
      * split; [done |]. split; [done |]. split; [by constructor | done].
      * unfold state_of in *. simpl. destruct (is_init g); [done |].
        discriminate.
    + apply run_Ret_state in Hc as [Hd _]; [| done]. congruence.
Qed.

(** The plain program, parsed, then initialized again. *)
Lemma parsed_registry_is_never_reopened_witness :
  exists g1 m1 g2,
    run NORMAL (Call_parse 1 ["plain"] (Some invoked))
      (plain_registry, plain_memory) = Ret (g1, m1)
    /\ run_all NORMAL [Call_init (Some "plain") None None None 1] (g1, m1)
       = Ret (g2, m1)
    /\ state_of g2 = Parsed
    /\ params_and_args g2 = params_and_args plain_registry.
Proof.
  exists (set_is_parsed plain_registry),
    (<[invoked := Vint 0]> plain_memory),
    (clic_init (Some "plain") None None None 1
       (set_is_parsed plain_registry)).
  split; [reflexivity |]. split; [reflexivity |].
  destruct (parsed_registry_is_never_reopened NORMAL
              [Call_init (Some "plain") None None None 1]
              (set_is_parsed plain_registry) _
              (<[invoked := Vint 0]> plain_memory) _ eq_refl eq_refl)
    as (Hst & _ & _ & _ & Hentries & _).
  by split.
Defined.

(** ** A subcommand and its entries *)

(** X17. The entries of a subcommand come after the subcommand: as long
    as no subcommand is registered under a non-zero identifier, declaring
    an entry for it fails with a configuration error; once
    [clic_add_subcommand] has returned for that identifier, declaring an
    entry for it under a valid name returns exactly when no entry of that
    identifier carries the name yet. *)
Theorem entries_follow_their_subcommand
    (i : Z) (name d : cstr) (a : Z) (g : clic_globals) :
  (i <> 0 ->
   (~ exists scope, scope ∈ subcommand_scopes g
        /\ sc_subcommand_id scope = i) ->
   forall n' d' t r data,
     ConfigurationError (clic_add_param_or_arg i n' d' t r data g))
  /\ (forall g', clic_add_subcommand i name d a g = Ret g' ->
        forall n d' t r data, valid_name n ->
          returns (clic_add_param_or_arg i (Some n) d' t r data g')
          <-> ~ exists e, e ∈ params_and_args g
                  /\ pa_subcommand_id e = i /\ pa_name e = n).
Proof.
  split.
  - intros Hnz Hnone n' d' t r data.
    destruct (clic_add_param_or_arg_cases i n' d' t r data g)
      as [(_ & [Hz | Hsc] & _) | [_ Herr]]; [done | done | done].
  - intros g' Hret n d' t r data Hv.
    destruct (clic_add_subcommand_cases i name d a g)
      as [[(Hst & Hnz & n0 & -> & Hv0 & Hfresh) Heq] | [_ [msg Herr]]];
      [| congruence].
    rewrite Heq in Hret. injection Hret as <-.
    match goal with
    | |- returns (clic_add_param_or_arg ?i ?n ?d ?t ?r ?data ?g0) <-> _ =>
        destruct (clic_add_param_or_arg_cases i n d t r data g0)
          as [(_ & _ & n1 & [= <-] & _ & Hnew & Hadd) | [Hacc Herr]]
    end.
    + rewrite Hadd. split; [intros _; exact Hnew | intros _; by eexists].
    + split; [intros Hr; by apply ConfigurationError_not_returns in Herr |].
      intros Hnew. exfalso. apply Hacc. split; [exact Hst |]. split.
      * right. exists (mk_scope i (Some n0) d a). simpl.
        split; [| done]. apply elem_of_app. right. apply list_elem_of_here.
      * exists n. do 2 (split; [done |]). exact Hnew.
Qed.

Lemma entries_follow_their_subcommand_witness :
  ConfigurationError
    (clic_add_param_int 9 (Some "jobs") None 4 (Some count) tool_registry)
  /\ exists g',
       clic_add_subcommand 9 (Some "run") None 0 tool_registry = Ret g'
       /\ returns (clic_add_param_int 9 (Some "jobs") None 4 (Some count) g').
Proof.
  pose proof (entries_follow_their_subcommand 9 (Some "run") None 0
                tool_registry) as [Hbefore Hafter].
  split.
  - apply Hbefore; [done |].
    intros (scope & Hin & Hid). vm_compute in Hin.
    apply elem_of_cons in Hin as [-> | Hin]; [discriminate |].
    apply list_elem_of_singleton in Hin as ->. discriminate.
  - eexists. split; [reflexivity |].
    apply (Hafter _ eq_refl "jobs").
    + split; [done |].
      split; [exists "j"%char, "obs"; split; [done |]; right;
              vm_compute; lia |].
      repeat constructor; left; right; vm_compute; lia.
    + intros (e & Hin & Hid & _). vm_compute in Hin.
      repeat (apply elem_of_cons in Hin as [-> | Hin]; [discriminate |]).
      by apply elem_of_nil in Hin.
Defined.
